(** * ArduinoLog: level gate, hook dispatch and format interpreter

    A shallow embedding of [class Logging] of [ArduinoLog.h] and a
    verification of its level gate ([printLevel] and the six public entry
    points).  The bodies of [print] and [printFormat] live in the
    implementation file of the library, which is not part of the sources
    at hand; they are modelled from the specification and marked as such.

    The embedding is of the default build: the preprocessor symbol
    [DISABLE_LOGGING] is not defined, so the bodies under
    [#ifndef DISABLE_LOGGING] are present. *)

From Stdlib Require Import ZArith NArith List String Ascii Bool Lia.
From Stdlib Require Import DecimalString HexString BinaryString.
From stdpp Require Import base option list gmap.

Import ListNotations.
Local Open Scope Z_scope.

(** ** Bytes and C strings *)

(** A [char] is one byte. *)
Abbreviation byte := ascii.

(** The bytes of a string literal, without the terminating zero. *)
Definition bytes (s : string) : list byte := list_ascii_of_string s.

Definition NUL : byte := Ascii.zero.

Definition is_NUL (c : byte) : bool := Ascii.eqb c NUL.

(** The introducer of a format specifier. *)
Definition PERCENT : byte := "%"%char.

(** A region of byte-addressed memory; an address is an offset into it and
    reading outside the region is undefined ([None]). *)
Definition region := list byte.
Definition addr := nat.

(** The C string that starts at the head of a region: the bytes before the
    first zero byte, or [None] when the region ends before any terminator. *)
Fixpoint cstring_of (r : region) : option (list byte) :=
  match r with
  | [] => None
  | c :: r' => if is_NUL c then Some []
               else match cstring_of r' with
                    | Some s => Some (c :: s)
                    | None => None
                    end
  end.

(** The C string at address [p] of region [r]. *)
Definition cstring_at (r : region) (p : addr) : option (list byte) :=
  cstring_of (drop p r).

(** The device has two storage classes: ordinary memory and program
    (flash) memory, each read by its own primitive. *)
Record Memory := mkMemory {
  ram : region;
  progmem : region
}.

(** [*p] on a [const char *]. *)
Definition read_byte (m : Memory) (p : addr) : option byte := ram m !! p.

(** [pgm_read_byte(p)] on a flash address. *)
Definition pgm_read_byte (m : Memory) (p : addr) : option byte := progmem m !! p.

(** ** The sink and the hooks *)

(** A [Print] object is append-only: its state is the bytes it has received
    so far, oldest first.  [Print *] is a nullable reference into a store
    of such objects. *)
Definition loc := positive.
Abbreviation Print := (list byte).
Abbreviation Sinks := (gmap loc (list byte)).

(** [typedef void (*printfunction)(Print *);]  A hook is handed the sink
    pointer and is modelled by what it does to the store of sinks; it may
    itself be undefined.  A hook that calls back into the logger (to
    reconfigure it, or to emit) is outside this model: every statement
    about a call that may invoke a hook assumes hooks that only write,
    [slot_writes] and [hooks_only_write] below, or an empty slot. *)
Definition printfunction := option loc -> Sinks -> option Sinks.

(** ** Severity levels *)

Definition LOG_LEVEL_SILENT : Z := 0.
Definition LOG_LEVEL_FATAL : Z := 1.
Definition LOG_LEVEL_ERROR : Z := 2.
Definition LOG_LEVEL_WARNING : Z := 3.
Definition LOG_LEVEL_DEBUG : Z := 4.
Definition LOG_LEVEL_TRACE : Z := 5.
Definition LOG_LEVEL_VERBOSE : Z := 6.

(** ** The logger object *)

Record Logging := mkLogging {
  _level : Z;
  _showLevel : bool;
  _baud : Z;
  _logOutput : option loc;
  _prefix : option printfunction;
  _suffix : option printfunction
}.

(** The default constructor: [_level(LOG_LEVEL_SILENT), _showLevel(true),
    _logOutput(NULL)], the hook members by their initialisers [= NULL].
    [_baud] is left uninitialised, so its value is whatever [baud] the
    storage happens to hold. *)
Definition Logging_new (baud : Z) : Logging :=
  {| _level := LOG_LEVEL_SILENT;
     _showLevel := true;
     _baud := baud;
     _logOutput := None;
     _prefix := None;
     _suffix := None |}.

(** ** Machine state and the monad of the methods *)

(** What a method of the logger can touch: the logger object itself, the
    store of sinks, and a ghost counter of hook invocations. *)
Record World := mkWorld {
  Log : Logging;
  sinks : Sinks;
  hook_calls : nat
}.

(** A computation over the world that may be undefined ([None]). *)
Definition M (A : Type) : Type := World -> option (A * World).

Definition ret {A} (a : A) : M A := fun w => Some (a, w).

Definition bind {A B} (c : M A) (k : A -> M B) : M B :=
  fun w => match c w with
           | Some (a, w') => k a w'
           | None => None
           end.

Definition undefined {A} : M A := fun _ => None.

(** Lifting of a partial value: [None] is undefined behaviour. *)
Definition defined {A} (o : option A) : M A :=
  match o with
  | Some a => ret a
  | None => undefined
  end.

(** Reading a member of [this]. *)
Definition member {A} (f : Logging -> A) : M A := fun w => Some (f (Log w), w).

Declare Scope logm_scope.
Delimit Scope logm_scope with logm.
Notation "x <- c ;; k" := (bind c (fun x => k))
  (at level 100, c at next level, right associativity) : logm_scope.
Notation "c ;; k" := (bind c (fun _ => k))
  (at level 100, right associativity) : logm_scope.
Local Open Scope logm_scope.

(** The world with another store of sinks. *)
Definition set_sinks (st : Sinks) (w : World) : World :=
  {| Log := Log w; sinks := st; hook_calls := hook_calls w |}.

(** Appending bytes to the sink behind a pointer; a null or dangling
    pointer is undefined. *)
Definition Print_write (out : option loc) (bs : list byte) : M unit :=
  fun w =>
    match out with
    | None => None
    | Some l =>
        match sinks w !! l with
        | None => None
        | Some s => Some (tt, set_sinks (<[l := s ++ bs]> (sinks w)) w)
        end
    end.

(** [out->print(c)] for a single character. *)
Definition Print_char (out : option loc) (c : byte) : M unit :=
  Print_write out [c].

(** [out->print(s)] for a byte sequence. *)
Definition Print_str (out : option loc) (s : list byte) : M unit :=
  Print_write out s.

(** Calling through a function pointer [f(out)], for a hook that does not
    call back into the logger. *)
Definition call (f : printfunction) (out : option loc) : M unit :=
  fun w =>
    match f out (sinks w) with
    | None => None
    | Some st =>
        Some (tt, {| Log := Log w; sinks := st; hook_calls := S (hook_calls w) |})
    end.

(** ** Target parameters *)

(** What the sources leave to the platform: the width of [int] (at least
    16 bits in any C implementation), the type of floating-point values
    and the decimal text the sink prints for one. *)
Class Target := mkTarget {
  int_bits : Z;
  int_bits_min : 16 <= int_bits;
  double : Type;
  double_repr : double -> list byte
}.

Section Logger.

Context {target : Target}.

(** ** Arguments *)

(** One variadic argument, tagged with the type it was passed at.  A
    string argument is a [char *] into ordinary memory. *)
Inductive Arg :=
| AStr (p : addr)
| AChar (c : byte)
| AInt (n : Z)
| ALong (n : Z)
| ABool (b : bool)
| ADouble (d : double).

Definition va_list := list Arg.

(** ** Conversions *)

(** Decimal digits, with a sign if negative. *)
Definition decimal (n : Z) : list byte :=
  bytes (NilZero.string_of_int (Z.to_int n)).

(** Lowercase hexadecimal digits of an unsigned value, no prefix. *)
Definition hexadecimal (n : N) : list byte :=
  match n with
  | N0 => bytes "0"
  | Npos p => bytes (HexString.Raw.of_pos p EmptyString)
  end.

(** Binary digits of an unsigned value, no prefix. *)
Definition binary (n : N) : list byte :=
  match n with
  | N0 => bytes "0"
  | Npos p => bytes (BinaryString.Raw.of_pos p EmptyString)
  end.

(** The bit pattern of an [int] read as an unsigned value. *)
Definition to_unsigned (n : Z) : N := Z.to_N (n mod 2 ^ int_bits).

(** The twelve specifier types. *)
Definition specifiers : list byte := bytes "scdlxXbBtTDF".

Definition is_specifier (c : byte) : bool := existsb (Ascii.eqb c) specifiers.

(** ** The format interpreter *)

(** Modelled from the spec: the body of [Logging::printFormat], which is
    defined in the implementation file, is missing.  One conversion: the
    specifier type selects what is taken from the argument list and what is
    written; any other byte is written verbatim and takes no argument.  An
    exhausted argument list or an argument of another type is undefined.
    The result is the argument list that remains. *)
Definition printFormat (m : Memory) (format : byte) (args : va_list) : M va_list :=
  out <- member _logOutput ;;
  if Ascii.eqb format "s" then
    match args with
    | AStr p :: rest =>
        s <- defined (cstring_at (ram m) p) ;; Print_str out s ;; ret rest
    | _ => undefined
    end
  else if Ascii.eqb format "c" then
    match args with
    | AChar c :: rest => Print_char out c ;; ret rest
    | _ => undefined
    end
  else if Ascii.eqb format "d" then
    match args with
    | AInt n :: rest => Print_str out (decimal n) ;; ret rest
    | _ => undefined
    end
  else if Ascii.eqb format "l" then
    match args with
    | ALong n :: rest => Print_str out (decimal n) ;; ret rest
    | _ => undefined
    end
  else if Ascii.eqb format "x" then
    match args with
    | AInt n :: rest => Print_str out (hexadecimal (to_unsigned n)) ;; ret rest
    | _ => undefined
    end
  else if Ascii.eqb format "X" then
    match args with
    | AInt n :: rest =>
        Print_str out (bytes "0x") ;;
        Print_str out (hexadecimal (to_unsigned n)) ;; ret rest
    | _ => undefined
    end
  else if Ascii.eqb format "b" then
    match args with
    | AInt n :: rest => Print_str out (binary (to_unsigned n)) ;; ret rest
    | _ => undefined
    end
  else if Ascii.eqb format "B" then
    match args with
    | AInt n :: rest =>
        Print_str out (bytes "0b") ;;
        Print_str out (binary (to_unsigned n)) ;; ret rest
    | _ => undefined
    end
  else if Ascii.eqb format "t" then
    match args with
    | ABool b :: rest => Print_str out (bytes (if b then "t" else "f")) ;; ret rest
    | _ => undefined
    end
  else if Ascii.eqb format "T" then
    match args with
    | ABool b :: rest =>
        Print_str out (bytes (if b then "true" else "false")) ;; ret rest
    | _ => undefined
    end
  else if Ascii.eqb format "D" || Ascii.eqb format "F" then
    match args with
    | ADouble d :: rest => Print_str out (double_repr d) ;; ret rest
    | _ => undefined
    end
  else
    Print_char out format ;; ret args.

(** Modelled from the spec: the bodies of the two overloads of
    [Logging::print], which are defined in the implementation file, are
    missing.  A single left-to-right pass that reads every byte through
    [fetch], the access method of the storage class of the source: a
    literal byte is written unchanged, the introducer takes the next byte
    as the specifier type, and the pass ends at the zero byte.  An
    introducer with the terminator behind it is undefined.  [fuel] bounds
    the number of iterations. *)
Fixpoint print_with (fetch : addr -> option byte) (m : Memory)
    (fuel : nat) (p : addr) (args : va_list) : M unit :=
  match fuel with
  | O => undefined
  | S fuel' =>
      c <- defined (fetch p) ;;
      if is_NUL c then ret tt
      else if Ascii.eqb c PERCENT then
        t <- defined (fetch (S p)) ;;
        if is_NUL t then undefined
        else
          args' <- printFormat m t args ;;
          print_with fetch m fuel' (S (S p)) args'
      else
        out <- member _logOutput ;;
        Print_char out c ;;
        print_with fetch m fuel' (S p) args
  end.

(** [void print(const char *format, va_list args)]: the source is in
    ordinary memory.  A pass over a region takes no more iterations than
    the region has bytes. *)
Definition print (m : Memory) (format : addr) (args : va_list) : M unit :=
  print_with (read_byte m) m (S (length (ram m))) format args.

(** [void print(const __FlashStringHelper *format, va_list args)]: the
    source is in program memory. *)
Definition print_flash (m : Memory) (format : addr) (args : va_list) : M unit :=
  print_with (pgm_read_byte m) m (S (length (progmem m))) format args.

(** The template parameter [T] of the emit methods: one of the two pointer
    types a format source can have.  Overload resolution picks the
    matching [print]. *)
Inductive format_source :=
| CharPtr (p : addr)
| FlashStringHelper (p : addr).

Definition print_msg (m : Memory) (msg : format_source) (args : va_list) : M unit :=
  match msg with
  | CharPtr p => print m p args
  | FlashStringHelper p => print_flash m p args
  end.

(** ** The level gate *)

(** [char levels[] = "FEWDTV";] is an array of seven bytes, the six
    characters and the terminator.  An index outside the array is
    undefined. *)
Definition levels : list byte := bytes "FEWDTV" ++ [NUL].

Definition levels_at (i : Z) : option byte :=
  if 0 <=? i then levels !! Z.to_nat i else None.

(** Calling through a hook slot if it is not [NULL]. *)
Definition call_if_set (slot : option printfunction) (out : option loc) : M unit :=
  match slot with
  | Some f => call f out
  | None => ret tt
  end.

Definition printLevel (m : Memory) (level : Z) (msg : format_source)
    (args : va_list) : M unit :=
  threshold <- member _level ;;
  if level <=? threshold then
    pre <- member _prefix ;;
    out <- member _logOutput ;;
    call_if_set pre out ;;
    showLevel <- member _showLevel ;;
    (if showLevel : bool then
       out <- member _logOutput ;;
       c <- defined (levels_at (level - 1)) ;;
       Print_char out c ;;
       Print_str out (bytes ": ")
     else ret tt) ;;
    print_msg m msg args ;;
    suf <- member _suffix ;;
    out <- member _logOutput ;;
    call_if_set suf out
  else ret tt.

(** The six public entry points. *)
Definition fatal (m : Memory) (msg : format_source) (args : va_list) : M unit :=
  printLevel m LOG_LEVEL_FATAL msg args.

Definition error (m : Memory) (msg : format_source) (args : va_list) : M unit :=
  printLevel m LOG_LEVEL_ERROR msg args.

Definition warning (m : Memory) (msg : format_source) (args : va_list) : M unit :=
  printLevel m LOG_LEVEL_WARNING msg args.

Definition debug (m : Memory) (msg : format_source) (args : va_list) : M unit :=
  printLevel m LOG_LEVEL_DEBUG msg args.

Definition trace (m : Memory) (msg : format_source) (args : va_list) : M unit :=
  printLevel m LOG_LEVEL_TRACE msg args.

Definition verbose (m : Memory) (msg : format_source) (args : va_list) : M unit :=
  printLevel m LOG_LEVEL_VERBOSE msg args.

(** The public emit surface as one family, to quantify over it. *)
Inductive entry := Fatal | Error | Warning | Debug | Trace | Verbose.

Definition entry_point (e : entry) : Memory -> format_source -> va_list -> M unit :=
  match e with
  | Fatal => fatal
  | Error => error
  | Warning => warning
  | Debug => debug
  | Trace => trace
  | Verbose => verbose
  end.

(** The severity an entry point passes to [printLevel]. *)
Definition entry_level (e : entry) : Z :=
  match e with
  | Fatal => LOG_LEVEL_FATAL
  | Error => LOG_LEVEL_ERROR
  | Warning => LOG_LEVEL_WARNING
  | Debug => LOG_LEVEL_DEBUG
  | Trace => LOG_LEVEL_TRACE
  | Verbose => LOG_LEVEL_VERBOSE
  end.

(** ** What a call writes, as a function *)

(** The world after the sink at [l] has received [bs]. *)
Definition append_at (l : loc) (bs : list byte) (w : World) : World :=
  match sinks w !! l with
  | Some s => set_sinks (<[l := s ++ bs]> (sinks w)) w
  | None => w
  end.

(** The bytes one conversion writes and the arguments it leaves. *)
Definition convert (m : Memory) (format : byte) (args : va_list)
    : option (list byte * va_list) :=
  if Ascii.eqb format "s" then
    match args with
    | AStr p :: rest =>
        match cstring_at (ram m) p with
        | Some s => Some (s, rest)
        | None => None
        end
    | _ => None
    end
  else if Ascii.eqb format "c" then
    match args with AChar c :: rest => Some ([c], rest) | _ => None end
  else if Ascii.eqb format "d" then
    match args with AInt n :: rest => Some (decimal n, rest) | _ => None end
  else if Ascii.eqb format "l" then
    match args with ALong n :: rest => Some (decimal n, rest) | _ => None end
  else if Ascii.eqb format "x" then
    match args with
    | AInt n :: rest => Some (hexadecimal (to_unsigned n), rest)
    | _ => None
    end
  else if Ascii.eqb format "X" then
    match args with
    | AInt n :: rest => Some (bytes "0x" ++ hexadecimal (to_unsigned n), rest)
    | _ => None
    end
  else if Ascii.eqb format "b" then
    match args with
    | AInt n :: rest => Some (binary (to_unsigned n), rest)
    | _ => None
    end
  else if Ascii.eqb format "B" then
    match args with
    | AInt n :: rest => Some (bytes "0b" ++ binary (to_unsigned n), rest)
    | _ => None
    end
  else if Ascii.eqb format "t" then
    match args with
    | ABool b :: rest => Some (bytes (if b then "t" else "f"), rest)
    | _ => None
    end
  else if Ascii.eqb format "T" then
    match args with
    | ABool b :: rest => Some (bytes (if b then "true" else "false"), rest)
    | _ => None
    end
  else if Ascii.eqb format "D" || Ascii.eqb format "F" then
    match args with ADouble d :: rest => Some (double_repr d, rest) | _ => None end
  else Some ([format], args).

(** The bytes a pass over the format string with content [s] writes. *)
Fixpoint render (m : Memory) (s : list byte) (args : va_list) : option (list byte) :=
  match s with
  | [] => Some []
  | c :: s' =>
      if Ascii.eqb c PERCENT then
        match s' with
        | [] => None
        | t :: s'' =>
            match convert m t args with
            | Some (bs, args') =>
                match render m s'' args' with
                | Some body => Some (bs ++ body)
                | None => None
                end
            | None => None
            end
        end
      else
        match render m s' args with
        | Some body => Some (c :: body)
        | None => None
        end
  end.

(** The content of a format source: the C string behind the pointer, in
    the storage class of the pointer. *)
Definition source_bytes (m : Memory) (msg : format_source) : option (list byte) :=
  match msg with
  | CharPtr p => cstring_at (ram m) p
  | FlashStringHelper p => cstring_at (progmem m) p
  end.

(** The level indicator of [printLevel]: the character and the separator
    if the level is shown, nothing otherwise. *)
Definition indicator (showLevel : bool) (level : Z) : option (list byte) :=
  if showLevel then
    match levels_at (level - 1) with
    | Some c => Some (c :: bytes ": ")
    | None => None
    end
  else Some [].

(** A hook that does nothing but send the bytes [out] to the sink it is
    handed. *)
Definition hook_writes (f : printfunction) (out : list byte) : Prop :=
  forall (l : loc) (st : Sinks) (s : list byte),
    st !! l = Some s -> f (Some l) st = Some (<[l := s ++ out]> st).

(** The same for a hook slot; an empty slot sends nothing. *)
Definition slot_writes (slot : option printfunction) (out : list byte) : Prop :=
  match slot with
  | Some f => hook_writes f out
  | None => out = []
  end.

(** The number of hooks a logger has set. *)
Definition hooks_set (L : Logging) : nat :=
  (match _prefix L with Some _ => 1 | None => 0 end
   + match _suffix L with Some _ => 1 | None => 0 end)%nat.

(** The hooks of the logger do nothing but write: either no hook is set,
    or the sink pointer is valid and each hook that is set only sends some
    bytes to the sink it is handed. *)
Definition hooks_only_write (w : World) : Prop :=
  (_prefix (Log w) = None /\ _suffix (Log w) = None) \/
  exists (l : loc) (s0 pre suf : list byte),
    _logOutput (Log w) = Some l /\ sinks w !! l = Some s0 /\
    slot_writes (_prefix (Log w)) pre /\ slot_writes (_suffix (Log w)) suf.

(** The world after [n] more hook invocations. *)
Definition count_calls (n : nat) (w : World) : World :=
  {| Log := Log w; sinks := sinks w; hook_calls := (hook_calls w + n)%nat |}.

(** One for a hook slot that is set, none for an empty one. *)
Definition slot_calls (slot : option printfunction) : nat :=
  match slot with Some _ => 1%nat | None => 0%nat end.

(** The computation [c], run from [w], returns and has sent at least one
    byte to the sink of the logger. *)
Definition writes_output (c : M unit) (w : World) : Prop :=
  exists (l : loc) (s out : list byte) (w' : World),
    _logOutput (Log w) = Some l /\ sinks w !! l = Some s /\
    c w = Some (tt, w') /\ sinks w' !! l = Some (s ++ out) /\ out <> [].

(** The display character of each entry point, as the documentation of the
    levels lists them. *)
Definition display_char (e : entry) : byte :=
  match e with
  | Fatal => "F"
  | Error => "E"
  | Warning => "W"
  | Debug => "D"
  | Trace => "T"
  | Verbose => "V"
  end%char.

(** A computation that leaves the logger object as it found it. *)
Definition keeps_Log {A} (c : M A) : Prop :=
  forall (w : World) (a : A) (w' : World), c w = Some (a, w') -> Log w' = Log w.

(** The conversions the documentation gives as examples: format string,
    arguments, expected text. *)
Definition round_trips : list (string * va_list * string) :=
  [ ("%d", [AInt (-5)], "-5");
    ("%x", [AInt 255], "ff");
    ("%X", [AInt 255], "0xff");
    ("%b", [AInt 5], "101");
    ("%B", [AInt 5], "0b101");
    ("%t", [ABool true], "t");
    ("%T", [ABool false], "false") ]%string.

(** ** Notions for the further properties *)

(** A computation that invokes no hook. *)
Definition keeps_calls {A} (c : M A) : Prop :=
  forall (w : World) (a : A) (w' : World),
    c w = Some (a, w') -> hook_calls w' = hook_calls w.

(** The world with another logger object in place of [Log]. *)
Definition swap_Log (L : Logging) (w : World) : World :=
  {| Log := L; sinks := sinks w; hook_calls := hook_calls w |}.

(** Two logger objects with the same sink pointer, level flag and hooks;
    they may differ in [_level] and [_baud]. *)
Definition same_output_members (L1 L2 : Logging) : Prop :=
  _logOutput L1 = _logOutput L2 /\
  _showLevel L1 = _showLevel L2 /\
  _prefix L1 = _prefix L2 /\
  _suffix L1 = _suffix L2.

(** A computation that reads of the logger object at most the sink
    pointer, the level flag and the hooks: with another logger that agrees
    on these it runs the same way. *)
Definition reads_output_members {A} (c : M A) : Prop :=
  forall (w : World) (L : Logging),
    same_output_members (Log w) L ->
    c (swap_Log L w) =
      match c w with
      | Some (a, w') => Some (a, swap_Log L w')
      | None => None
      end.

(** Two calls of [printLevel] in a row. *)
Definition printLevel_twice (m : Memory)
    (level1 : Z) (msg1 : format_source) (args1 : va_list)
    (level2 : Z) (msg2 : format_source) (args2 : va_list) : M unit :=
  printLevel m level1 msg1 args1 ;; printLevel m level2 msg2 args2.

End Logger.

(** ** A sample device *)

(** A value in hundredths, printed with two decimals. *)
Definition two_decimals (h : Z) : list byte :=
  (if h <? 0 then bytes "-" else []) ++
  decimal (Z.abs h / 100) ++ bytes "." ++
  decimal (Z.abs h mod 100 / 10) ++ decimal (Z.abs h mod 10).

(** A board with a 32-bit [int], such as the ESP8266. *)
Definition esp8266 : Target :=
  {| int_bits := 32;
     int_bits_min := Zle_bool_imp_le 16 32 eq_refl;
     double := Z;
     double_repr := two_decimals |}.

(** The one sink of the sample device. *)
Definition Serial : loc := 1%positive.

(** A hook that sends a fixed tag to the sink it is handed. *)
Definition tag_hook (tag : list byte) : printfunction :=
  fun out st =>
    match out with
    | Some l =>
        match st !! l with
        | Some s => Some (<[l := s ++ tag]> st)
        | None => None
        end
    | None => None
    end.

(** The sample device after the logger was set up with the given threshold,
    flag and hooks on [Serial], which has received nothing yet. *)
Definition device (threshold : Z) (showLevel : bool)
    (pre suf : option printfunction) : World :=
  {| Log := {| _level := threshold;
               _showLevel := showLevel;
               _baud := 9600;
               _logOutput := Some Serial;
               _prefix := pre;
               _suffix := suf |};
     sinks := {[ Serial := [] ]};
     hook_calls := 0 |}.

(** [#define CR "\n"] *)
Definition CR : string := String "010" EmptyString.

(** The format string of the warning of the quick start. *)
Definition warning_format : string :=
  ("Log as Warning with integer values : %d, %d" ++ CR)%string.

(** A memory that holds the same text, terminated, at address 0 of both
    storage classes. *)
Definition memory_with (text : string) : Memory :=
  {| ram := bytes text ++ [NUL]; progmem := bytes text ++ [NUL] |}.

(** * Properties *)

(** ** The monad *)

Lemma bind_unfold {A B} (c : M A) (k : A -> M B) (w : World) :
  bind c k w = match c w with Some (a, w') => k a w' | None => None end.
Proof. reflexivity. Qed.

Lemma bind_ret {A B} (a : A) (k : A -> M B) (w : World) :
  bind (ret a) k w = k a w.
Proof. reflexivity. Qed.

Lemma bind_member {A B} (f : Logging -> A) (k : A -> M B) (w : World) :
  bind (member f) k w = k (f (Log w)) w.
Proof. reflexivity. Qed.

(** ** C strings in a region *)

Lemma cstring_of_length (r : region) (s : list byte) :
  cstring_of r = Some s -> (length s < length r)%nat.
Proof.
  revert s. induction r as [|c r IH]; intros s; simpl; [discriminate|].
  destruct (is_NUL c).
  - intros [= <-]. simpl. lia.
  - destruct (cstring_of r) as [s'|]; [|discriminate].
    intros [= <-]. specialize (IH s' eq_refl). simpl. lia.
Qed.

Lemma cstring_at_length (r : region) (p : addr) (s : list byte) :
  cstring_at r p = Some s -> (p + length s < length r)%nat.
Proof.
  unfold cstring_at. intros H. apply cstring_of_length in H.
  rewrite length_drop in H. lia.
Qed.

Lemma cstring_at_nil (r : region) (p : addr) :
  cstring_at r p = Some [] ->
  exists c, r !! p = Some c /\ is_NUL c = true.
Proof.
  unfold cstring_at. destruct (r !! p) as [c|] eqn:Hp.
  - rewrite (drop_S _ _ _ Hp). simpl. destruct (is_NUL c) eqn:Hc.
    + intros _. eauto.
    + destruct (cstring_of (drop (S p) r)); discriminate.
  - apply lookup_ge_None in Hp. rewrite drop_ge by lia. discriminate.
Qed.

Lemma cstring_at_cons (r : region) (p : addr) (c : byte) (s : list byte) :
  cstring_at r p = Some (c :: s) ->
  r !! p = Some c /\ is_NUL c = false /\ cstring_at r (S p) = Some s.
Proof.
  unfold cstring_at. destruct (r !! p) as [c'|] eqn:Hp.
  - rewrite (drop_S _ _ _ Hp). simpl. destruct (is_NUL c') eqn:Hc; [discriminate|].
    destruct (cstring_of (drop (S p) r)) as [s'|]; [|discriminate].
    intros [= <- <-]. auto.
  - apply lookup_ge_None in Hp. rewrite drop_ge by lia. discriminate.
Qed.

(** ** The store of sinks *)

Lemma set_sinks_id (w : World) : set_sinks (sinks w) w = w.
Proof. destruct w; reflexivity. Qed.

Lemma append_at_nil (l : loc) (w : World) : append_at l [] w = w.
Proof.
  unfold append_at. destruct (sinks w !! l) as [s|] eqn:Hl; [|reflexivity].
  rewrite app_nil_r, insert_id by exact Hl. apply set_sinks_id.
Qed.

Lemma append_at_app (l : loc) (a b : list byte) (w : World) :
  append_at l b (append_at l a w) = append_at l (a ++ b) w.
Proof.
  unfold append_at. destruct (sinks w !! l) as [s|] eqn:Hl.
  - simpl. rewrite lookup_insert_eq, insert_insert_eq, app_assoc. reflexivity.
  - rewrite Hl. reflexivity.
Qed.

Lemma Log_append_at (l : loc) (bs : list byte) (w : World) :
  Log (append_at l bs w) = Log w.
Proof. unfold append_at. destruct (sinks w !! l); reflexivity. Qed.

Lemma hook_calls_append_at (l : loc) (bs : list byte) (w : World) :
  hook_calls (append_at l bs w) = hook_calls w.
Proof. unfold append_at. destruct (sinks w !! l); reflexivity. Qed.

Lemma sinks_append_at (l : loc) (bs s : list byte) (w : World) :
  sinks w !! l = Some s -> sinks (append_at l bs w) !! l = Some (s ++ bs).
Proof. unfold append_at. intros ->. simpl. apply lookup_insert_eq. Qed.

Lemma sinks_append_at_ne (l l' : loc) (bs : list byte) (w : World) :
  l <> l' -> sinks (append_at l bs w) !! l' = sinks w !! l'.
Proof.
  unfold append_at. intros Hne. destruct (sinks w !! l); [|reflexivity].
  simpl. apply lookup_insert_ne. exact Hne.
Qed.

Lemma Print_write_append (l : loc) (bs s : list byte) (w : World) :
  sinks w !! l = Some s ->
  Print_write (Some l) bs w = Some (tt, append_at l bs w).
Proof. unfold Print_write, append_at. intros ->. reflexivity. Qed.

Section LoggerFacts.

Context {target : Target}.

(** ** The interpreter writes what [render] says *)

Ltac sink_write :=
  match goal with
  | |- context [Print_write (Some ?l) ?bs ?w] =>
      erewrite (Print_write_append l bs _ w)
        by (first [eassumption | apply sinks_append_at; eassumption])
  end.

Lemma printFormat_convert (m : Memory) (t : byte) (args : va_list)
    (w : World) (l : loc) (s0 : list byte) :
  _logOutput (Log w) = Some l ->
  sinks w !! l = Some s0 ->
  printFormat m t args w =
    match convert m t args with
    | Some (bs, rest) => Some (rest, append_at l bs w)
    | None => None
    end.
Proof.
  intros Hout Hl. unfold printFormat, convert, bind, member.
  rewrite Hout. unfold Print_str, Print_char.
  repeat match goal with
         | |- context [if Ascii.eqb t ?c then _ else _] =>
             destruct (Ascii.eqb t c)
         | |- context [if (Ascii.eqb t ?c || Ascii.eqb t ?d)%bool then _ else _] =>
             destruct (Ascii.eqb t c || Ascii.eqb t d)%bool
         end;
    try (destruct args as [|[] rest]; try reflexivity);
    try (unfold defined; destruct (cstring_at (ram m) p); [|reflexivity]);
    unfold ret, undefined;
    repeat sink_write; rewrite ?append_at_app; reflexivity.
Qed.

Lemma print_with_render (r : region) (m : Memory) (l : loc) (fuel : nat) :
  forall (s : list byte) (p : addr) (args : va_list) (w : World) (s0 : list byte),
    cstring_at r p = Some s ->
    (length s < fuel)%nat ->
    _logOutput (Log w) = Some l ->
    sinks w !! l = Some s0 ->
    print_with (fun a => r !! a) m fuel p args w =
      match render m s args with
      | Some body => Some (tt, append_at l body w)
      | None => None
      end.
Proof.
  induction fuel as [|fuel IH]; intros s p args w s0 Hs Hfuel Hout Hl;
    [lia|].
  destruct s as [|c s'].
  - apply cstring_at_nil in Hs as (c & Hc & Hnul).
    simpl. unfold bind. rewrite Hc. simpl. rewrite Hnul.
    rewrite append_at_nil. reflexivity.
  - apply cstring_at_cons in Hs as (Hc & Hnul & Hs').
    simpl in Hfuel. cbn [print_with render]. unfold bind at 1.
    rewrite Hc. cbn [defined ret]. rewrite Hnul.
    destruct (Ascii.eqb c PERCENT).
    + destruct s' as [|t s''].
      * apply cstring_at_nil in Hs' as (c' & Hc' & Hnul').
        unfold bind. rewrite Hc'. simpl. rewrite Hnul'. reflexivity.
      * apply cstring_at_cons in Hs' as (Ht & Hnult & Hs'').
        simpl in Hfuel. unfold bind at 1. rewrite Ht. cbn [defined ret].
        rewrite Hnult. unfold bind at 1.
        rewrite (printFormat_convert m t args w l s0 Hout Hl).
        destruct (convert m t args) as [[bs args']|]; [|reflexivity].
        rewrite (IH s'' (S (S p)) args' (append_at l bs w) (s0 ++ bs)); try lia;
          [| assumption | rewrite Log_append_at; assumption
           | apply sinks_append_at; assumption].
        destruct (render m s'' args'); [|reflexivity].
        rewrite append_at_app. reflexivity.
    + unfold bind at 1, member at 1. rewrite Hout. unfold bind at 1, Print_char.
      rewrite (Print_write_append l [c] s0 w Hl).
      rewrite (IH s' (S p) args (append_at l [c] w) (s0 ++ [c])); try lia;
        [| assumption | rewrite Log_append_at; assumption
         | apply sinks_append_at; assumption].
      destruct (render m s' args); [|reflexivity].
      rewrite append_at_app. reflexivity.
Qed.

(** The driver of either storage class, with the fuel it is given. *)
Lemma print_msg_render (m : Memory) (msg : format_source) (args : va_list)
    (w : World) (l : loc) (s s0 : list byte) :
  source_bytes m msg = Some s ->
  _logOutput (Log w) = Some l ->
  sinks w !! l = Some s0 ->
  print_msg m msg args w =
    match render m s args with
    | Some body => Some (tt, append_at l body w)
    | None => None
    end.
Proof.
  intros Hs Hout Hl. destruct msg as [p|p]; simpl in Hs;
    pose proof (cstring_at_length _ _ _ Hs) as Hlen;
    unfold print_msg, print, print_flash;
    [ change (read_byte m) with (fun a => ram m !! a)
    | change (pgm_read_byte m) with (fun a => progmem m !! a) ];
    apply (print_with_render _ m l _ s p args w s0); auto; lia.
Qed.

(** Two passes over byte-identical content take the same steps, whatever
    regions the content is read from. *)
Lemma print_with_agree (r1 r2 : region) (m : Memory) (fuel1 : nat) :
  forall (fuel2 : nat) (s : list byte) (p q : addr) (args : va_list) (w : World),
    cstring_at r1 p = Some s ->
    cstring_at r2 q = Some s ->
    (length s < fuel1)%nat ->
    (length s < fuel2)%nat ->
    print_with (fun a => r1 !! a) m fuel1 p args w =
    print_with (fun a => r2 !! a) m fuel2 q args w.
Proof.
  induction fuel1 as [|fuel1 IH]; intros fuel2 s p q args w H1 H2 Hf1 Hf2;
    [lia|].
  destruct fuel2 as [|fuel2]; [lia|].
  destruct s as [|c s'].
  - apply cstring_at_nil in H1 as (c1 & Hc1 & Hn1).
    apply cstring_at_nil in H2 as (c2 & Hc2 & Hn2).
    cbn [print_with]. rewrite Hc1, Hc2. cbn [defined].
    rewrite !bind_ret, Hn1, Hn2. reflexivity.
  - apply cstring_at_cons in H1 as (Hc1 & Hn & H1').
    apply cstring_at_cons in H2 as (Hc2 & _ & H2').
    simpl in Hf1, Hf2. cbn [print_with]. rewrite Hc1, Hc2. cbn [defined].
    rewrite !bind_ret, Hn.
    destruct (Ascii.eqb c PERCENT).
    + destruct s' as [|t s''].
      * apply cstring_at_nil in H1' as (c1 & Hc1' & Hn1).
        apply cstring_at_nil in H2' as (c2 & Hc2' & Hn2).
        rewrite Hc1', Hc2'. cbn [defined]. rewrite !bind_ret, Hn1, Hn2.
        reflexivity.
      * apply cstring_at_cons in H1' as (Ht1 & Hnt & H1'').
        apply cstring_at_cons in H2' as (Ht2 & _ & H2'').
        simpl in Hf1, Hf2. rewrite Ht1, Ht2. cbn [defined].
        rewrite !bind_ret, Hnt, !bind_unfold.
        destruct (printFormat m t args w) as [[args' w']|]; [|reflexivity].
        apply (IH fuel2 s''); auto; lia.
    + rewrite !bind_member, !bind_unfold.
      destruct (Print_char (_logOutput (Log w)) c w) as [[[] w']|];
        [|reflexivity].
      apply (IH fuel2 s'); auto; lia.
Qed.

(** ** The logger object is only read *)

Lemma keeps_Log_ret {A} (a : A) : keeps_Log (ret a).
Proof. intros w a' w' [= _ <-]. reflexivity. Qed.

Lemma keeps_Log_undefined {A} : keeps_Log (@undefined A).
Proof. intros w a w' [=]. Qed.

Lemma keeps_Log_defined {A} (o : option A) : keeps_Log (defined o).
Proof. destruct o; [apply keeps_Log_ret | apply keeps_Log_undefined]. Qed.

Lemma keeps_Log_member {A} (f : Logging -> A) : keeps_Log (member f).
Proof. intros w a w' [= _ <-]. reflexivity. Qed.

Lemma keeps_Log_bind {A B} (c : M A) (k : A -> M B) :
  keeps_Log c -> (forall a, keeps_Log (k a)) -> keeps_Log (bind c k).
Proof.
  intros Hc Hk w b w'. rewrite bind_unfold.
  destruct (c w) as [[a w1]|] eqn:Hcw; [|discriminate].
  intros Hkw. rewrite (Hk a w1 b w' Hkw). exact (Hc w a w1 Hcw).
Qed.

Lemma keeps_Log_Print_write (out : option loc) (bs : list byte) :
  keeps_Log (Print_write out bs).
Proof.
  intros w a w'. unfold Print_write. destruct out as [l|]; [|discriminate].
  destruct (sinks w !! l); [|discriminate]. intros [= _ <-]. reflexivity.
Qed.

Lemma keeps_Log_call (f : printfunction) (out : option loc) :
  keeps_Log (call f out).
Proof.
  intros w a w'. unfold call. destruct (f out (sinks w)); [|discriminate].
  intros [= _ <-]. reflexivity.
Qed.

Lemma keeps_Log_call_if_set (slot : option printfunction) (out : option loc) :
  keeps_Log (call_if_set slot out).
Proof. destruct slot; [apply keeps_Log_call | apply keeps_Log_ret]. Qed.

Create HintDb frame discriminated.

#[local] Hint Resolve keeps_Log_ret keeps_Log_undefined keeps_Log_defined
  keeps_Log_member keeps_Log_Print_write keeps_Log_call
  keeps_Log_call_if_set : frame.

Ltac frame :=
  repeat first
    [ progress eauto with frame
    | apply keeps_Log_bind; [|intros ?]
    | match goal with
      | |- keeps_Log (if ?b then _ else _) => destruct b
      | |- keeps_Log (match ?x with _ => _ end) => destruct x
      end ].

Lemma keeps_Log_printFormat (m : Memory) (t : byte) (args : va_list) :
  keeps_Log (printFormat m t args).
Proof. unfold printFormat, Print_str, Print_char. frame. Qed.

Lemma keeps_Log_print_with (fetch : addr -> option byte) (m : Memory)
    (fuel : nat) :
  forall (p : addr) (args : va_list), keeps_Log (print_with fetch m fuel p args).
Proof.
  induction fuel as [|fuel IH]; intros p args; cbn [print_with].
  - apply keeps_Log_undefined.
  - pose proof (keeps_Log_printFormat m) as HF. unfold Print_char. frame.
Qed.

Lemma keeps_Log_print_msg (m : Memory) (msg : format_source) (args : va_list) :
  keeps_Log (print_msg m msg args).
Proof. destruct msg; apply keeps_Log_print_with. Qed.

Lemma keeps_Log_printLevel (m : Memory) (level : Z) (msg : format_source)
    (args : va_list) :
  keeps_Log (printLevel m level msg args).
Proof.
  pose proof (keeps_Log_print_msg m msg args) as HP.
  unfold printLevel, Print_str, Print_char. frame.
Qed.

(** ** What a passing call does *)

Lemma count_calls_0 (w : World) : count_calls 0 w = w.
Proof. destruct w. unfold count_calls. simpl. rewrite Nat.add_0_r. reflexivity. Qed.

Lemma count_calls_add (a b : nat) (w : World) :
  count_calls b (count_calls a w) = count_calls (a + b) w.
Proof. unfold count_calls. simpl. rewrite Nat.add_assoc. reflexivity. Qed.

Lemma append_at_count_calls (l : loc) (bs : list byte) (n : nat) (w : World) :
  append_at l bs (count_calls n w) = count_calls n (append_at l bs w).
Proof.
  unfold append_at. simpl. destruct (sinks w !! l); reflexivity.
Qed.

Lemma call_if_set_writes (slot : option printfunction) (out : list byte)
    (l : loc) (s : list byte) (w : World) :
  slot_writes slot out ->
  sinks w !! l = Some s ->
  call_if_set slot (Some l) w =
    Some (tt, count_calls (slot_calls slot) (append_at l out w)).
Proof.
  intros Hslot Hl. destruct slot as [f|]; simpl in *.
  - unfold call, append_at. rewrite (Hslot l (sinks w) s Hl), Hl.
    unfold count_calls, set_sinks. simpl. rewrite Nat.add_1_r. reflexivity.
  - subst out. rewrite append_at_nil, count_calls_0. reflexivity.
Qed.

Lemma printLevel_closed (m : Memory) (level : Z) (msg : format_source)
    (args : va_list) (w : World) :
  _level (Log w) < level ->
  printLevel m level msg args w = Some (tt, w).
Proof.
  intros Hgate. unfold printLevel. rewrite bind_member.
  destruct (Z.leb_spec level (_level (Log w))); [lia | reflexivity].
Qed.

Lemma printLevel_open (m : Memory) (level : Z) (msg : format_source)
    (args : va_list) (w w1 : World) (l : loc) (s1 ind fmt body : list byte) :
  level <= _level (Log w) ->
  _logOutput (Log w) = Some l ->
  call_if_set (_prefix (Log w)) (Some l) w = Some (tt, w1) ->
  sinks w1 !! l = Some s1 ->
  indicator (_showLevel (Log w)) level = Some ind ->
  source_bytes m msg = Some fmt ->
  render m fmt args = Some body ->
  printLevel m level msg args w =
    call_if_set (_suffix (Log w)) (Some l) (append_at l (ind ++ body) w1).
Proof.
  intros Hgate Hout Hpre Hl1 Hind Hfmt Hbody.
  pose proof (keeps_Log_call_if_set _ _ _ _ _ Hpre) as HL1.
  unfold printLevel. rewrite bind_member.
  destruct (Z.leb_spec level (_level (Log w))); [|lia].
  rewrite !bind_member, Hout, bind_unfold, Hpre.
  rewrite bind_member, HL1.
  assert (Hblock :
    (if _showLevel (Log w)
     then out <- member _logOutput ;;
          c <- defined (levels_at (level - 1)) ;;
          Print_char out c ;; Print_str out (bytes ": ")
     else ret tt) w1 = Some (tt, append_at l ind w1)).
  { unfold indicator in Hind. destruct (_showLevel (Log w)).
    - destruct (levels_at (level - 1)) as [c|]; [|discriminate].
      injection Hind as <-.
      rewrite bind_member, HL1, Hout. cbn [defined]. rewrite bind_ret.
      unfold Print_char, Print_str. rewrite bind_unfold.
      rewrite (Print_write_append l [c] _ w1 Hl1).
      rewrite (Print_write_append l (bytes ": ") (s1 ++ [c]))
        by (apply sinks_append_at; assumption).
      rewrite append_at_app. reflexivity.
    - injection Hind as <-. rewrite append_at_nil. reflexivity. }
  rewrite bind_unfold, Hblock. clear Hblock.
  set (w2 := append_at l ind w1).
  assert (HL2 : Log w2 = Log w) by (unfold w2; rewrite Log_append_at; exact HL1).
  assert (Hl2 : sinks w2 !! l = Some (s1 ++ ind))
    by (unfold w2; apply sinks_append_at; assumption).
  rewrite bind_unfold.
  rewrite (print_msg_render m msg args w2 l fmt _ Hfmt
             (eq_trans (f_equal _ HL2) Hout) Hl2).
  rewrite Hbody, !bind_member, Log_append_at, HL2, Hout.
  unfold w2. rewrite append_at_app. reflexivity.
Qed.

Lemma printLevel_run (m : Memory) (level : Z) (msg : format_source)
    (args : va_list) (w : World) (l : loc)
    (s0 pre ind fmt body suf : list byte) :
  level <= _level (Log w) ->
  _logOutput (Log w) = Some l ->
  sinks w !! l = Some s0 ->
  slot_writes (_prefix (Log w)) pre ->
  slot_writes (_suffix (Log w)) suf ->
  indicator (_showLevel (Log w)) level = Some ind ->
  source_bytes m msg = Some fmt ->
  render m fmt args = Some body ->
  printLevel m level msg args w =
    Some (tt, count_calls (hooks_set (Log w))
                (append_at l (pre ++ ind ++ body ++ suf) w)).
Proof.
  intros Hgate Hout Hl Hpre Hsuf Hind Hfmt Hbody.
  rewrite (printLevel_open m level msg args w _ l (s0 ++ pre) ind fmt body
             Hgate Hout (call_if_set_writes _ pre l s0 w Hpre Hl));
    try assumption;
    [| simpl; apply sinks_append_at; assumption ].
  rewrite (call_if_set_writes _ suf l ((s0 ++ pre) ++ ind ++ body) _ Hsuf)
    by (apply sinks_append_at; simpl; apply sinks_append_at; assumption).
  rewrite !append_at_count_calls, count_calls_add, !append_at_app.
  rewrite <- ?app_assoc. reflexivity.
Qed.

(** Every entry point passes a level whose indicator is defined. *)
Lemma indicator_entry (showLevel : bool) (e : entry) :
  indicator showLevel (entry_level e) =
    Some (if showLevel then display_char e :: bytes ": " else []).
Proof. destruct showLevel, e; reflexivity. Qed.

Lemma entry_point_printLevel (e : entry) :
  entry_point e = fun m => printLevel m (entry_level e).
Proof. destruct e; reflexivity. Qed.

End LoggerFacts.

(** * The level gate *)

Section Gate.

Context {target : Target}.

(** C5: an emit call at a level strictly above the threshold returns at
    once and has no effect: it is defined for every world, whatever the sink
    pointer, the hooks, the format source and the arguments are, and the
    world it returns is the one it was given, so nothing was written, the
    count of hook invocations did not move and the logger is unchanged.
    The same holds for the six entry points. *)
Theorem closed_gate_is_noop (m : Memory) (level : Z) (msg : format_source)
    (args : va_list) (w : World) :
  _level (Log w) < level ->
  printLevel m level msg args w = Some (tt, w) /\
  (forall e : entry, entry_level e = level ->
     entry_point e m msg args w = Some (tt, w)).
Proof.
  intros Hgate. split.
  - apply printLevel_closed. exact Hgate.
  - intros e <-. rewrite entry_point_printLevel.
    apply printLevel_closed. exact Hgate.
Qed.

(** C9: each of the six entry points calls [printLevel] with a level
    between 1 and 6; for every such level the index [level - 1] is inside
    the table and selects one of the six characters of "FEWDTV", and for
    each entry point it selects the character of its level. *)
Theorem level_index_in_bounds :
  (forall e : entry,
     entry_point e = (fun m => printLevel m (entry_level e)) /\
     1 <= entry_level e <= 6 /\
     levels_at (entry_level e - 1) = Some (display_char e)) /\
  (forall level : Z,
     1 <= level <= 6 ->
     exists c, levels_at (level - 1) = Some c /\ In c (bytes "FEWDTV")).
Proof.
  split.
  - intros e. split; [apply entry_point_printLevel|].
    destruct e; (split; [cbv; intuition discriminate | reflexivity]).
  - intros level Hlevel.
    assert (Hcases : level = 1 \/ level = 2 \/ level = 3 \/
                     level = 4 \/ level = 5 \/ level = 6) by lia.
    destruct Hcases as [-> | [-> | [-> | [-> | [-> | ->]]]]];
      (eexists; split; [reflexivity | simpl; tauto]).
Qed.

(** C8: a default-constructed logger has threshold SILENT, shows the
    level and has a null sink.  With that threshold and that sink, whatever
    the hook slots hold, every entry point is defined and returns the world
    it was given: the gate comparison fails for each of the six levels, and
    the null sink is never written through (writing through a null sink is
    undefined in the model). *)
Theorem default_constructed_is_silent :
  (forall baud : Z,
     _level (Logging_new baud) = LOG_LEVEL_SILENT /\
     _showLevel (Logging_new baud) = true /\
     _logOutput (Logging_new baud) = None /\
     _prefix (Logging_new baud) = None /\
     _suffix (Logging_new baud) = None) /\
  (forall (baud : Z) (e : entry),
     (entry_level e <=? _level (Logging_new baud)) = false) /\
  (forall (baud : Z) (pre suf : option printfunction) (st : Sinks) (n : nat)
          (e : entry) (m : Memory) (msg : format_source) (args : va_list),
     let w := {| Log := {| _level := _level (Logging_new baud);
                           _showLevel := _showLevel (Logging_new baud);
                           _baud := baud;
                           _logOutput := _logOutput (Logging_new baud);
                           _prefix := pre;
                           _suffix := suf |};
                 sinks := st;
                 hook_calls := n |} in
     entry_point e m msg args w = Some (tt, w)) /\
  (forall (bs : list byte) (w : World), Print_write None bs w = None).
Proof.
  repeat split.
  - intros baud e. destruct e; reflexivity.
  - intros baud pre suf st n e m msg args w.
    rewrite entry_point_printLevel. apply printLevel_closed.
    destruct e; reflexivity.
Qed.

(** C10: an emit call does not change the logger object.  With hooks
    that only write (or none set), whenever [printLevel], or one of the six
    entry points, returns, the logger of the resulting world is the logger
    of the initial one: threshold, level flag, sink reference, prefix hook
    and suffix hook are the same, whether the gate was open or closed. *)
Theorem emit_keeps_configuration (m : Memory) (level : Z) (e : entry)
    (msg : format_source) (args : va_list) (w w' : World) :
  hooks_only_write w ->
  printLevel m level msg args w = Some (tt, w') \/
  entry_point e m msg args w = Some (tt, w') ->
  Log w' = Log w /\
  _level (Log w') = _level (Log w) /\
  _showLevel (Log w') = _showLevel (Log w) /\
  _logOutput (Log w') = _logOutput (Log w) /\
  _prefix (Log w') = _prefix (Log w) /\
  _suffix (Log w') = _suffix (Log w).
Proof.
  intros _ Hrun.
  assert (HL : Log w' = Log w).
  { destruct Hrun as [Hrun | Hrun].
    - exact (keeps_Log_printLevel m level msg args w tt w' Hrun).
    - rewrite entry_point_printLevel in Hrun.
      exact (keeps_Log_printLevel m (entry_level e) msg args w tt w' Hrun). }
  rewrite HL. repeat split.
Qed.

(** C2: for a passing call of an entry point on a sink that holds [s0],
    with hooks that only write ([pre] by the prefix hook, [suf] by the
    suffix hook, nothing for an empty slot), the call returns and the sink
    holds [s0], then the prefix output, then, when the level is shown, the
    one character of the level (the entry of index [level - 1] of the table:
    F, E, W, D, T, V) and ": ", then the formatted body, then the suffix
    output; when the level is not shown the body follows the prefix output
    directly. *)
Theorem level_indicator_follows_prefix (e : entry) (m : Memory)
    (msg : format_source) (args : va_list) (w : World) (l : loc)
    (s0 pre suf fmt body : list byte) :
  entry_level e <= _level (Log w) ->
  _logOutput (Log w) = Some l ->
  sinks w !! l = Some s0 ->
  slot_writes (_prefix (Log w)) pre ->
  slot_writes (_suffix (Log w)) suf ->
  source_bytes m msg = Some fmt ->
  render m fmt args = Some body ->
  levels !! Z.to_nat (entry_level e - 1) = Some (display_char e) /\
  exists w' : World,
    entry_point e m msg args w = Some (tt, w') /\
    sinks w' !! l =
      Some (s0 ++ pre
               ++ (if _showLevel (Log w)
                   then [display_char e] ++ bytes ": "
                   else [])
               ++ body ++ suf).
Proof.
  intros Hgate Hout Hl Hpre Hsuf Hfmt Hbody.
  split; [destruct e; reflexivity|].
  eexists. split.
  - rewrite entry_point_printLevel.
    apply (printLevel_run m (entry_level e) msg args w l s0 pre
             (if _showLevel (Log w) then display_char e :: bytes ": " else [])
             fmt body suf);
      try assumption.
    apply indicator_entry.
  - simpl. rewrite (sinks_append_at l _ s0 w Hl).
    destruct (_showLevel (Log w)); reflexivity.
Qed.

(** C3: for a passing call of [printLevel] on a sink that holds [s0], where
    the hooks that are set send [pre] and [suf] to the sink they are handed
    (an empty slot sends nothing and is not called), the call returns, and
    the sink then holds [s0] followed by the prefix output, the level
    indicator, the formatted body and the suffix output, in this order; the
    hooks that are set have been invoked once each, no other sink has
    changed, and for an empty slot the matching output is empty. *)
Theorem emit_order (m : Memory) (level : Z) (msg : format_source)
    (args : va_list) (w : World) (l : loc)
    (s0 pre ind fmt body suf : list byte) :
  level <= _level (Log w) ->
  _logOutput (Log w) = Some l ->
  sinks w !! l = Some s0 ->
  slot_writes (_prefix (Log w)) pre ->
  slot_writes (_suffix (Log w)) suf ->
  indicator (_showLevel (Log w)) level = Some ind ->
  source_bytes m msg = Some fmt ->
  render m fmt args = Some body ->
  exists w' : World,
    printLevel m level msg args w = Some (tt, w') /\
    sinks w' !! l = Some (s0 ++ pre ++ ind ++ body ++ suf) /\
    (forall l' : loc, l' <> l -> sinks w' !! l' = sinks w !! l') /\
    hook_calls w' = (hook_calls w + hooks_set (Log w))%nat /\
    (_prefix (Log w) = None -> pre = []) /\
    (_suffix (Log w) = None -> suf = []).
Proof.
  intros Hgate Hout Hl Hpre Hsuf Hind Hfmt Hbody.
  eexists. split.
  - apply (printLevel_run m level msg args w l s0 pre ind fmt body suf);
      assumption.
  - simpl. repeat split.
    + apply sinks_append_at. exact Hl.
    + intros l' Hne. apply sinks_append_at_ne. congruence.
    + rewrite hook_calls_append_at. reflexivity.
    + intros Hnone. rewrite Hnone in Hpre. exact Hpre.
    + intros Hnone. rewrite Hnone in Hsuf. exact Hsuf.
Qed.

(** C1, as amended: for each of the six entry points, if its level is
    above the threshold, or the threshold is SILENT, the call is defined and
    writes nothing.  On a valid sink, with hooks that only write to it and a
    format that renders, output is written if and only if the level is at
    most the threshold and the threshold is not SILENT, provided there is
    anything to write: the level is shown, or the hooks and the body send
    at least one byte. *)
Theorem entry_points_write_iff_gate_open (e : entry) (m : Memory)
    (msg : format_source) (args : va_list) (w : World) :
  (_level (Log w) < entry_level e \/ _level (Log w) = LOG_LEVEL_SILENT ->
   entry_point e m msg args w = Some (tt, w)) /\
  (forall (l : loc) (s0 pre suf fmt body : list byte),
     _logOutput (Log w) = Some l ->
     sinks w !! l = Some s0 ->
     slot_writes (_prefix (Log w)) pre ->
     slot_writes (_suffix (Log w)) suf ->
     source_bytes m msg = Some fmt ->
     render m fmt args = Some body ->
     _showLevel (Log w) = true \/ pre ++ body ++ suf <> [] ->
     (writes_output (entry_point e m msg args) w <->
      entry_level e <= _level (Log w) /\ _level (Log w) <> LOG_LEVEL_SILENT)).
Proof.
  assert (Hpos : 1 <= entry_level e) by (destruct e; cbv; discriminate).
  assert (Hclosed : _level (Log w) < entry_level e ->
                    entry_point e m msg args w = Some (tt, w)).
  { intros Hlt. rewrite entry_point_printLevel. apply printLevel_closed.
    exact Hlt. }
  split.
  - intros [Hlt | Hsilent]; apply Hclosed; [exact Hlt|].
    rewrite Hsilent. unfold LOG_LEVEL_SILENT. lia.
  - intros l s0 pre suf fmt body Hout Hl Hpre Hsuf Hfmt Hbody Hsome. split.
    + intros (l' & s & out & w' & Hout' & Hl' & Hrun & Hl'' & Hne).
      destruct (Z.lt_ge_cases (_level (Log w)) (entry_level e)) as [Hlt|Hge].
      * rewrite (Hclosed Hlt) in Hrun. injection Hrun as <-.
        rewrite Hl' in Hl''. injection Hl'' as Heq.
        rewrite <- (app_nil_r s) in Heq at 1.
        apply app_inv_head in Heq. congruence.
      * split; [exact Hge | unfold LOG_LEVEL_SILENT; lia].
    + intros [Hgate _].
      set (ind := if _showLevel (Log w) then display_char e :: bytes ": " else []).
      exists l, s0, (pre ++ ind ++ body ++ suf).
      eexists. repeat split; try eassumption.
      * rewrite entry_point_printLevel.
        apply (printLevel_run m (entry_level e) msg args w l s0 pre ind fmt body suf);
          try assumption.
        apply indicator_entry.
      * simpl. apply sinks_append_at. exact Hl.
      * destruct Hsome as [Hshow | Hbytes].
        -- unfold ind. rewrite Hshow. destruct pre; discriminate.
        -- intros Hnil. apply Hbytes.
           apply app_eq_nil in Hnil as [-> Hnil].
           apply app_eq_nil in Hnil as [_ Hnil]. exact Hnil.
Qed.

End Gate.

(** * The format interpreter *)

Section Interpreter.

Context {target : Target}.

(** A value of sixteen bits or fewer is its own bit pattern, whatever the
    width of [int] on the target is. *)
Lemma to_unsigned_small (n : Z) :
  0 <= n < 2 ^ 16 -> to_unsigned n = Z.to_N n.
Proof.
  intros Hn. unfold to_unsigned. rewrite Z.mod_small; [reflexivity|].
  pose proof int_bits_min as Hbits.
  assert (2 ^ 16 <= 2 ^ int_bits) by (apply Z.pow_le_mono_r; lia). lia.
Qed.

Lemma convert_other (m : Memory) (t : byte) (args : va_list) :
  is_specifier t = false -> convert m t args = Some ([t], args).
Proof.
  unfold is_specifier, specifiers. cbn [bytes list_ascii_of_string existsb].
  intros H.
  repeat (apply orb_false_iff in H as [? H]).
  unfold convert.
  repeat match goal with
         | Heq : Ascii.eqb t ?c = false |- _ => rewrite Heq; clear Heq
         end.
  reflexivity.
Qed.

(** C4: each of the listed conversions renders as listed.  For a format
    source of either storage class whose content is the format string, and
    a valid sink, the call is defined and appends exactly the expected text:
    "%d" with -5 gives "-5", "%x" with 255 gives "ff", "%X" with 255 gives
    "0xff", "%b" with 5 gives "101", "%B" with 5 gives "0b101", "%t" with
    true gives "t", "%T" with false gives "false". *)
Theorem conversion_round_trips (fmt out : string) (args : va_list)
    (m : Memory) (msg : format_source) (w : World) (l : loc) (s0 : list byte) :
  In (fmt, args, out) round_trips ->
  source_bytes m msg = Some (bytes fmt) ->
  _logOutput (Log w) = Some l ->
  sinks w !! l = Some s0 ->
  print_msg m msg args w = Some (tt, append_at l (bytes out) w) /\
  sinks (append_at l (bytes out) w) !! l = Some (s0 ++ bytes out).
Proof.
  intros Hin Hfmt Hout Hl. split; [|apply sinks_append_at; exact Hl].
  rewrite (print_msg_render m msg args w l (bytes fmt) s0 Hfmt Hout Hl).
  assert (H255 : to_unsigned 255 = 255%N) by (apply to_unsigned_small; lia).
  assert (H5 : to_unsigned 5 = 5%N) by (apply to_unsigned_small; lia).
  assert (Hrender : render m (bytes fmt) args = Some (bytes out)).
  { unfold round_trips in Hin. simpl in Hin.
    repeat destruct Hin as [Hin | Hin]; try contradiction;
      injection Hin as <- <- <-;
      cbn [bytes list_ascii_of_string render convert Ascii.eqb Bool.eqb PERCENT
           orb];
      rewrite ?H255, ?H5; reflexivity. }
  rewrite Hrender. reflexivity.
Qed.

(** C6: a byte after the introducer that is not one of the specifier
    types is written verbatim and takes no argument: [printFormat] appends
    that one byte and returns the argument list it was given, and in a pass
    the two bytes contribute that byte and leave all arguments to the rest
    of the format.  In particular "100%%" renders as "100%" whatever the
    arguments are. *)
Theorem unrecognised_specifier_verbatim (m : Memory) (t : byte)
    (args : va_list) (w : World) (l : loc) (s0 : list byte) :
  is_specifier t = false ->
  _logOutput (Log w) = Some l ->
  sinks w !! l = Some s0 ->
  printFormat m t args w = Some (args, append_at l [t] w) /\
  (forall rest : list byte,
     render m (PERCENT :: t :: rest) args =
     option_map (cons t) (render m rest args)) /\
  (forall msg : format_source,
     source_bytes m msg = Some (bytes "100%%") ->
     print_msg m msg args w = Some (tt, append_at l (bytes "100%") w)).
Proof.
  intros Hother Hout Hl. repeat split.
  - rewrite (printFormat_convert m t args w l s0 Hout Hl).
    rewrite (convert_other m t args Hother). reflexivity.
  - intros rest. cbn [render]. rewrite Ascii.eqb_refl.
    rewrite (convert_other m t args Hother).
    destruct (render m rest args); reflexivity.
  - intros msg Hfmt.
    rewrite (print_msg_render m msg args w l _ s0 Hfmt Hout Hl).
    reflexivity.
Qed.

(** C7: a format source in ordinary memory and one in program memory
    with byte-identical content render identically: for every argument list
    and every world the two overloads of [print] return the same result, and
    so write the same bytes to the sink. *)
Theorem storage_class_agnostic (m : Memory) (p q : addr) (s : list byte)
    (args : va_list) (w : World) :
  cstring_at (ram m) p = Some s ->
  cstring_at (progmem m) q = Some s ->
  print m p args w = print_flash m q args w /\
  print_msg m (CharPtr p) args w = print_msg m (FlashStringHelper q) args w /\
  (forall (l : loc) (s0 body : list byte),
     _logOutput (Log w) = Some l ->
     sinks w !! l = Some s0 ->
     render m s args = Some body ->
     print m p args w = Some (tt, append_at l body w) /\
     print_flash m q args w = Some (tt, append_at l body w)).
Proof.
  intros Hram Hflash.
  assert (Heq : print m p args w = print_flash m q args w).
  { pose proof (cstring_at_length _ _ _ Hram).
    pose proof (cstring_at_length _ _ _ Hflash).
    unfold print, print_flash.
    change (read_byte m) with (fun a => ram m !! a).
    change (pgm_read_byte m) with (fun a => progmem m !! a).
    apply (print_with_agree _ _ m _ _ s); auto; lia. }
  split; [exact Heq|]. split; [exact Heq|].
  intros l s0 body Hout Hl Hbody.
  pose proof (print_msg_render m (CharPtr p) args w l s s0 Hram Hout Hl) as Hr.
  pose proof (print_msg_render m (FlashStringHelper q) args w l s s0 Hflash Hout Hl)
    as Hf.
  rewrite Hbody in Hr, Hf. split; [exact Hr | exact Hf].
Qed.

End Interpreter.

(** * The claims on the sample device *)

Section Samples.

#[local] Existing Instance esp8266.

Lemma tag_hook_writes (tag : list byte) : hook_writes (tag_hook tag) tag.
Proof. intros l st s Hl. unfold tag_hook. rewrite Hl. reflexivity. Qed.

(** With threshold ERROR a call of [debug] is a no-op, even with a prefix
    hook that would be undefined if it were called and a format that does
    not fit its arguments. *)
Lemma closed_gate_is_noop_witness :
  _level (Log (device LOG_LEVEL_ERROR true (Some (fun _ _ => None)) None))
    < LOG_LEVEL_DEBUG /\
  debug (memory_with "%d") (CharPtr 0%nat) []
    (device LOG_LEVEL_ERROR true (Some (fun _ _ => None)) None)
  = Some (tt, device LOG_LEVEL_ERROR true (Some (fun _ _ => None)) None).
Proof.
  split; [reflexivity|].
  apply (proj2 (closed_gate_is_noop (memory_with "%d") LOG_LEVEL_DEBUG
                  (CharPtr 0%nat) []
                  (device LOG_LEVEL_ERROR true (Some (fun _ _ => None)) None)
                  eq_refl) Debug eq_refl).
Defined.

Lemma level_index_in_bounds_witness :
  1 <= LOG_LEVEL_WARNING <= 6 /\
  exists c, levels_at (LOG_LEVEL_WARNING - 1) = Some c /\ In c (bytes "FEWDTV").
Proof.
  split; [cbv; intuition discriminate|].
  apply (proj2 level_index_in_bounds LOG_LEVEL_WARNING).
  cbv; intuition discriminate.
Defined.

(** The warning of the quick start, at threshold WARNING, behind a prefix
    hook that sends a tag. *)
Lemma emit_keeps_configuration_witness :
  hooks_only_write
    (device LOG_LEVEL_WARNING true (Some (tag_hook (bytes "[12] "))) None) /\
  warning (memory_with warning_format) (FlashStringHelper 0%nat)
    [AInt 34; AInt 799870]
    (device LOG_LEVEL_WARNING true (Some (tag_hook (bytes "[12] "))) None)
  = Some (tt, {| Log := Log (device LOG_LEVEL_WARNING true
                               (Some (tag_hook (bytes "[12] "))) None);
                 sinks := {[ Serial :=
                   bytes ("[12] W: Log as Warning with integer values : 34, 799870"
                          ++ CR) ]};
                 hook_calls := 1 |}) /\
  Log {| Log := Log (device LOG_LEVEL_WARNING true
                       (Some (tag_hook (bytes "[12] "))) None);
         sinks := {[ Serial :=
           bytes ("[12] W: Log as Warning with integer values : 34, 799870"
                  ++ CR) ]};
         hook_calls := 1 |}
  = Log (device LOG_LEVEL_WARNING true (Some (tag_hook (bytes "[12] "))) None).
Proof.
  assert (Hhooks :
    hooks_only_write
      (device LOG_LEVEL_WARNING true (Some (tag_hook (bytes "[12] "))) None)).
  { right. exists Serial, [], (bytes "[12] "), [].
    repeat split; [apply tag_hook_writes]. }
  assert (Hrun :
    warning (memory_with warning_format) (FlashStringHelper 0%nat)
      [AInt 34; AInt 799870]
      (device LOG_LEVEL_WARNING true (Some (tag_hook (bytes "[12] "))) None)
    = Some (tt, {| Log := Log (device LOG_LEVEL_WARNING true
                                 (Some (tag_hook (bytes "[12] "))) None);
                   sinks := {[ Serial :=
                     bytes ("[12] W: Log as Warning with integer values : 34, 799870"
                            ++ CR) ]};
                   hook_calls := 1 |}))
    by (vm_compute; reflexivity).
  split; [exact Hhooks|]. split; [exact Hrun|].
  exact (proj1 (emit_keeps_configuration (memory_with warning_format)
                  LOG_LEVEL_WARNING Warning (FlashStringHelper 0%nat)
                  [AInt 34; AInt 799870] _ _ Hhooks (or_intror Hrun))).
Defined.

(** With threshold VERBOSE, the level hidden and no hooks, a call of
    [fatal] with an empty format string passes the gate and writes
    nothing. *)
Lemma empty_message_writes_nothing :
  ~ (writes_output
       (entry_point Fatal (memory_with EmptyString) (CharPtr 0%nat) [])
       (device LOG_LEVEL_VERBOSE false None None)
     <->
     entry_level Fatal <= _level (Log (device LOG_LEVEL_VERBOSE false None None)) /\
     _level (Log (device LOG_LEVEL_VERBOSE false None None)) <> LOG_LEVEL_SILENT).
Proof.
  intros [_ Hwrites].
  destruct Hwrites as (l & s & out & w' & Hout & Hl & Hrun & Hl' & Hne).
  { split; [cbv; discriminate | discriminate]. }
  injection Hout as <-.
  vm_compute in Hl. injection Hl as <-.
  vm_compute in Hrun. injection Hrun as <-.
  vm_compute in Hl'. injection Hl' as <-.
  apply Hne. reflexivity.
Qed.

Lemma entry_points_write_iff_gate_open_witness :
  (_showLevel (Log (device LOG_LEVEL_WARNING true None None)) = true \/
   [] ++ bytes ("Log as Warning with integer values : 34, 799870" ++ CR) ++ []
     <> ([] : list byte)) /\
  (writes_output
     (entry_point Warning (memory_with warning_format) (CharPtr 0%nat)
        [AInt 34; AInt 799870])
     (device LOG_LEVEL_WARNING true None None)
   <->
   entry_level Warning <= _level (Log (device LOG_LEVEL_WARNING true None None)) /\
   _level (Log (device LOG_LEVEL_WARNING true None None)) <> LOG_LEVEL_SILENT).
Proof.
  split; [left; reflexivity|].
  apply (proj2 (entry_points_write_iff_gate_open Warning
                  (memory_with warning_format) (CharPtr 0%nat)
                  [AInt 34; AInt 799870]
                  (device LOG_LEVEL_WARNING true None None))
           Serial [] [] []
           (bytes warning_format)
           (bytes ("Log as Warning with integer values : 34, 799870" ++ CR)));
    [ reflexivity | reflexivity | reflexivity | reflexivity
    | vm_compute; reflexivity | vm_compute; reflexivity
    | left; reflexivity ].
Defined.

(** The warning of the quick start behind a prefix hook that sends a
    tag: the tag, then the indicator, then the body. *)
Lemma level_indicator_follows_prefix_witness :
  exists w' : World,
    entry_point Warning (memory_with warning_format) (CharPtr 0%nat)
      [AInt 34; AInt 799870]
      (device LOG_LEVEL_WARNING true (Some (tag_hook (bytes "[12] "))) None)
    = Some (tt, w') /\
    sinks w' !! Serial =
      Some ([] ++ bytes "[12] "
               ++ (if _showLevel
                        (Log (device LOG_LEVEL_WARNING true
                                (Some (tag_hook (bytes "[12] "))) None))
                   then [display_char Warning] ++ bytes ": "
                   else [])
               ++ bytes ("Log as Warning with integer values : 34, 799870" ++ CR)
               ++ []).
Proof.
  apply (level_indicator_follows_prefix Warning (memory_with warning_format)
           (CharPtr 0%nat) [AInt 34; AInt 799870]
           (device LOG_LEVEL_WARNING true (Some (tag_hook (bytes "[12] "))) None)
           Serial [] (bytes "[12] ") [] (bytes warning_format)
           (bytes ("Log as Warning with integer values : 34, 799870" ++ CR)));
    [ cbv; discriminate | reflexivity | reflexivity
    | apply tag_hook_writes | reflexivity
    | vm_compute; reflexivity | vm_compute; reflexivity ].
Defined.

(** The same call with a suffix hook as well. *)
Lemma emit_order_witness :
  exists w' : World,
    printLevel (memory_with warning_format) LOG_LEVEL_WARNING (CharPtr 0%nat)
      [AInt 34; AInt 799870]
      (device LOG_LEVEL_WARNING true (Some (tag_hook (bytes "[12] ")))
         (Some (tag_hook (bytes "~"))))
    = Some (tt, w') /\
    sinks w' !! Serial =
      Some ([] ++ bytes "[12] " ++ bytes "W: "
               ++ bytes ("Log as Warning with integer values : 34, 799870" ++ CR)
               ++ bytes "~") /\
    hook_calls w' = 2%nat.
Proof.
  destruct
    (emit_order (memory_with warning_format) LOG_LEVEL_WARNING (CharPtr 0%nat)
       [AInt 34; AInt 799870]
       (device LOG_LEVEL_WARNING true (Some (tag_hook (bytes "[12] ")))
          (Some (tag_hook (bytes "~"))))
       Serial [] (bytes "[12] ") (bytes "W: ") (bytes warning_format)
       (bytes ("Log as Warning with integer values : 34, 799870" ++ CR))
       (bytes "~"))
    as (w' & Hrun & Hsink & _ & Hcalls & _);
    [ cbv; discriminate | reflexivity | reflexivity
    | apply tag_hook_writes | apply tag_hook_writes
    | vm_compute; reflexivity | vm_compute; reflexivity
    | vm_compute; reflexivity | ].
  exists w'. split; [exact Hrun|]. split; [exact Hsink | exact Hcalls].
Defined.

Lemma conversion_round_trips_witness :
  In ("%X"%string, [AInt 255], "0xff"%string) round_trips /\
  print_msg (memory_with "%X") (FlashStringHelper 0%nat) [AInt 255]
    (device LOG_LEVEL_VERBOSE false None None)
  = Some (tt, append_at Serial (bytes "0xff")
                (device LOG_LEVEL_VERBOSE false None None)).
Proof.
  assert (Hin : In ("%X"%string, [AInt 255], "0xff"%string) round_trips)
    by (simpl; tauto).
  split; [exact Hin|].
  apply (proj1 (conversion_round_trips "%X" "0xff" [AInt 255]
                  (memory_with "%X") (FlashStringHelper 0%nat)
                  (device LOG_LEVEL_VERBOSE false None None) Serial []
                  Hin eq_refl eq_refl eq_refl)).
Defined.

Lemma unrecognised_specifier_verbatim_witness :
  is_specifier "q" = false /\
  printFormat (memory_with "100%%") "q" [AInt 7]
    (device LOG_LEVEL_VERBOSE false None None)
  = Some ([AInt 7], append_at Serial ["q"%char]
                      (device LOG_LEVEL_VERBOSE false None None)) /\
  print_msg (memory_with "100%%") (CharPtr 0%nat) [AInt 7]
    (device LOG_LEVEL_VERBOSE false None None)
  = Some (tt, append_at Serial (bytes "100%")
                (device LOG_LEVEL_VERBOSE false None None)).
Proof.
  split; [reflexivity|].
  destruct
    (unrecognised_specifier_verbatim (memory_with "100%%") "q" [AInt 7]
       (device LOG_LEVEL_VERBOSE false None None) Serial []
       eq_refl eq_refl eq_refl)
    as (Hone & _ & Hpass).
  split; [exact Hone|].
  apply (Hpass (CharPtr 0%nat)). reflexivity.
Defined.

(** The same text at address 3 of ordinary memory and at address 0 of
    program memory. *)
Lemma storage_class_agnostic_witness :
  cstring_at (bytes "ab" ++ [NUL] ++ bytes "%d!" ++ [NUL]) 3%nat = Some (bytes "%d!") /\
  cstring_at (bytes "%d!" ++ [NUL] ++ bytes "zz") 0%nat = Some (bytes "%d!") /\
  print {| ram := bytes "ab" ++ [NUL] ++ bytes "%d!" ++ [NUL];
           progmem := bytes "%d!" ++ [NUL] ++ bytes "zz" |}
    3%nat [AInt 42] (device LOG_LEVEL_VERBOSE false None None)
  = print_flash {| ram := bytes "ab" ++ [NUL] ++ bytes "%d!" ++ [NUL];
                   progmem := bytes "%d!" ++ [NUL] ++ bytes "zz" |}
      0%nat [AInt 42] (device LOG_LEVEL_VERBOSE false None None).
Proof.
  split; [reflexivity|]. split; [reflexivity|].
  apply (proj1 (storage_class_agnostic
                  {| ram := bytes "ab" ++ [NUL] ++ bytes "%d!" ++ [NUL];
                     progmem := bytes "%d!" ++ [NUL] ++ bytes "zz" |}
                  3%nat 0%nat (bytes "%d!") [AInt 42]
                  (device LOG_LEVEL_VERBOSE false None None)
                  eq_refl eq_refl)).
Defined.

End Samples.

(** * Further properties of the level gate *)

Section Further.

Context {target : Target}.

Lemma bind_Some {A B} (c : M A) (k : A -> M B) (w w' : World) (b : B) :
  bind c k w = Some (b, w') ->
  exists (a : A) (w1 : World), c w = Some (a, w1) /\ k a w1 = Some (b, w').
Proof.
  rewrite bind_unfold. destruct (c w) as [[a w1]|]; [|discriminate].
  intros Hk. exists a, w1. split; [reflexivity | exact Hk].
Qed.

(** ** Only [printLevel] itself invokes hooks *)

Lemma keeps_calls_ret {A} (a : A) : keeps_calls (ret a).
Proof. intros w a' w' [= _ <-]. reflexivity. Qed.

Lemma keeps_calls_undefined {A} : keeps_calls (@undefined A).
Proof. intros w a w' [=]. Qed.

Lemma keeps_calls_defined {A} (o : option A) : keeps_calls (defined o).
Proof. destruct o; [apply keeps_calls_ret | apply keeps_calls_undefined]. Qed.

Lemma keeps_calls_member {A} (f : Logging -> A) : keeps_calls (member f).
Proof. intros w a w' [= _ <-]. reflexivity. Qed.

Lemma keeps_calls_bind {A B} (c : M A) (k : A -> M B) :
  keeps_calls c -> (forall a, keeps_calls (k a)) -> keeps_calls (bind c k).
Proof.
  intros Hc Hk w b w' Hrun.
  apply bind_Some in Hrun as (a & w1 & Hcw & Hkw).
  rewrite (Hk a w1 b w' Hkw). exact (Hc w a w1 Hcw).
Qed.

Lemma keeps_calls_Print_write (out : option loc) (bs : list byte) :
  keeps_calls (Print_write out bs).
Proof.
  intros w a w'. unfold Print_write. destruct out as [l|]; [|discriminate].
  destruct (sinks w !! l); [|discriminate]. intros [= _ <-]. reflexivity.
Qed.

Create HintDb calls discriminated.

#[local] Hint Resolve keeps_calls_ret keeps_calls_undefined
  keeps_calls_defined keeps_calls_member keeps_calls_Print_write : calls.

Ltac calls :=
  repeat first
    [ progress eauto with calls
    | apply keeps_calls_bind; [|intros ?]
    | match goal with
      | |- keeps_calls (if ?b then _ else _) => destruct b
      | |- keeps_calls (match ?x with _ => _ end) => destruct x
      end ].

Lemma keeps_calls_printFormat (m : Memory) (t : byte) (args : va_list) :
  keeps_calls (printFormat m t args).
Proof. unfold printFormat, Print_str, Print_char. calls. Qed.

Lemma keeps_calls_print_with (fetch : addr -> option byte) (m : Memory)
    (fuel : nat) :
  forall (p : addr) (args : va_list),
    keeps_calls (print_with fetch m fuel p args).
Proof.
  induction fuel as [|fuel IH]; intros p args; cbn [print_with].
  - apply keeps_calls_undefined.
  - pose proof (keeps_calls_printFormat m) as HF. unfold Print_char. calls.
Qed.

Lemma keeps_calls_print_msg (m : Memory) (msg : format_source) (args : va_list) :
  keeps_calls (print_msg m msg args).
Proof. destruct msg; apply keeps_calls_print_with. Qed.

Lemma call_if_set_calls (slot : option printfunction) (out : option loc)
    (w w' : World) :
  call_if_set slot out w = Some (tt, w') ->
  hook_calls w' = (hook_calls w + slot_calls slot)%nat.
Proof.
  destruct slot as [f|]; simpl.
  - unfold call. destruct (f out (sinks w)); [|discriminate].
    intros [= <-]. simpl. lia.
  - intros [= <-]. lia.
Qed.

Ltac logs :=
  repeat first
    [ apply keeps_Log_ret | apply keeps_Log_undefined | apply keeps_Log_defined
    | apply keeps_Log_member | apply keeps_Log_Print_write
    | apply keeps_Log_bind; [|intros ?]
    | match goal with
      | |- keeps_Log (if ?b then _ else _) => destruct b
      | |- keeps_Log (match ?x with _ => _ end) => destruct x
      end ].

(** The block of [printLevel] that writes the level indicator. *)
Lemma indicator_block_frame (showLevel : bool) (level : Z) (w1 w2 : World) :
  (if showLevel
   then out <- member _logOutput ;;
        c <- defined (levels_at (level - 1)) ;;
        Print_char out c ;; Print_str out (bytes ": ")
   else ret tt) w1 = Some (tt, w2) ->
  Log w2 = Log w1 /\ hook_calls w2 = hook_calls w1.
Proof.
  intros Hrun. split; revert Hrun.
  - match goal with |- ?c w1 = _ -> _ => assert (K : keeps_Log c) end.
    { unfold Print_char, Print_str. logs. }
    apply K.
  - match goal with |- ?c w1 = _ -> _ => assert (K : keeps_calls c) end.
    { unfold Print_char, Print_str. calls. }
    apply K.
Qed.

(** X7: with hooks that only write, every hook that is set is invoked
    exactly once by a passing call that returns, and no hook is invoked by
    a suppressed call; no assumption is made on the level, the format
    source or the arguments. *)
Theorem hooks_invoked_once_each (m : Memory) (level : Z) (msg : format_source)
    (args : va_list) (w w' : World) :
  hooks_only_write w ->
  printLevel m level msg args w = Some (tt, w') ->
  hook_calls w' =
    Nat.add (hook_calls w)
      (if level <=? _level (Log w) then hooks_set (Log w) else 0%nat).
Proof.
  intros _. unfold printLevel. rewrite bind_member.
  destruct (level <=? _level (Log w)); [|intros [= <-]; lia].
  rewrite !bind_member. intros Hrun.
  apply bind_Some in Hrun as ([] & w1 & Hpre & Hrun).
  pose proof (keeps_Log_call_if_set _ _ _ _ _ Hpre) as HL1.
  apply call_if_set_calls in Hpre.
  rewrite bind_member in Hrun.
  apply bind_Some in Hrun as ([] & w2 & Hind & Hrun).
  apply indicator_block_frame in Hind as [HL2 Hc2].
  apply bind_Some in Hrun as ([] & w3 & Hprint & Hrun).
  pose proof (keeps_Log_print_msg _ _ _ _ _ _ Hprint) as HL3.
  pose proof (keeps_calls_print_msg _ _ _ _ _ _ Hprint) as Hc3.
  rewrite !bind_member in Hrun.
  apply call_if_set_calls in Hrun.
  rewrite Hrun, Hc3, Hc2, Hpre, HL3, HL2, HL1. unfold hooks_set, slot_calls. lia.
Qed.

(** ** The sink pointer and the level index of a passing call *)

Lemma levels_at_None (i : Z) : levels_at i = None <-> i < 0 \/ 6 < i.
Proof.
  unfold levels_at. destruct (Z.leb_spec 0 i) as [Hle | Hlt].
  - rewrite lookup_ge_None. change (length levels) with 7%nat. lia.
  - split; [lia | reflexivity].
Qed.

Lemma printLevel_bad_index (m : Memory) (level : Z) (msg : format_source)
    (args : va_list) (w : World) :
  level <= _level (Log w) ->
  _showLevel (Log w) = true ->
  levels_at (level - 1) = None ->
  printLevel m level msg args w = None.
Proof.
  intros Hgate Hshow Hidx. unfold printLevel. rewrite bind_member.
  destruct (Z.leb_spec level (_level (Log w))); [|lia].
  rewrite !bind_member, bind_unfold.
  destruct (call_if_set (_prefix (Log w)) (_logOutput (Log w)) w)
    as [[[] w1]|] eqn:Hpre; [|reflexivity].
  rewrite (bind_member _showLevel).
  rewrite (keeps_Log_call_if_set _ _ _ _ _ Hpre), Hshow.
  rewrite bind_unfold, bind_member, Hidx. reflexivity.
Qed.

(** X3: a passing call that shows the level and finds a null sink pointer is
    undefined when no prefix hook is set: the level character is written
    through the null pointer (or the table is read out of bounds) before
    the format is looked at. *)
Theorem open_gate_needs_sink (m : Memory) (level : Z) (msg : format_source)
    (args : va_list) (w : World) :
  level <= _level (Log w) ->
  _showLevel (Log w) = true ->
  _logOutput (Log w) = None ->
  _prefix (Log w) = None ->
  printLevel m level msg args w = None /\
  (forall e : entry, entry_level e = level -> entry_point e m msg args w = None).
Proof.
  intros Hgate Hshow Hout _.
  assert (Hnone : printLevel m level msg args w = None).
  { unfold printLevel. rewrite bind_member.
    destruct (Z.leb_spec level (_level (Log w))); [|lia].
    rewrite !bind_member, bind_unfold.
    destruct (call_if_set (_prefix (Log w)) (_logOutput (Log w)) w)
      as [[[] w1]|] eqn:Hpre; [|reflexivity].
    pose proof (keeps_Log_call_if_set _ _ _ _ _ Hpre) as HL1.
    rewrite (bind_member _showLevel), HL1, Hshow.
    rewrite bind_unfold, bind_member, HL1, Hout.
    destruct (levels_at (level - 1)); reflexivity. }
  split; [exact Hnone|].
  intros e <-. rewrite entry_point_printLevel. exact Hnone.
Qed.

(** X4: with the level shown, a passing call of [printLevel] on a valid sink
    is defined exactly for the levels 1 to 7: below 1 and above 7 the index
    [level - 1] is outside the seven bytes of the table.  At level 7 the
    character written is the terminator of the table. *)
Theorem level_index_bounds_are_tight (m : Memory) (level : Z)
    (msg : format_source) (args : va_list) (w : World) (l : loc)
    (s0 pre fmt body suf : list byte) :
  level <= _level (Log w) ->
  _showLevel (Log w) = true ->
  _logOutput (Log w) = Some l ->
  sinks w !! l = Some s0 ->
  slot_writes (_prefix (Log w)) pre ->
  slot_writes (_suffix (Log w)) suf ->
  source_bytes m msg = Some fmt ->
  render m fmt args = Some body ->
  ((exists w' : World, printLevel m level msg args w = Some (tt, w')) <->
   1 <= level <= 7) /\
  (level = 7 ->
   exists w' : World,
     printLevel m level msg args w = Some (tt, w') /\
     sinks w' !! l = Some (s0 ++ pre ++ (NUL :: bytes ": ") ++ body ++ suf)).
Proof.
  intros Hgate Hshow Hout Hl Hpre Hsuf Hfmt Hbody.
  assert (Hdef : forall c, levels_at (level - 1) = Some c ->
            printLevel m level msg args w =
              Some (tt, count_calls (hooks_set (Log w))
                          (append_at l (pre ++ (c :: bytes ": ") ++ body ++ suf) w))).
  { intros c Hc.
    apply (printLevel_run m level msg args w l s0 pre _ fmt body suf);
      try assumption.
    unfold indicator. rewrite Hshow, Hc. reflexivity. }
  split; [split|].
  - intros [w' Hrun].
    destruct (levels_at (level - 1)) as [c|] eqn:Hc.
    + assert (Hn : levels_at (level - 1) <> None) by congruence.
      rewrite levels_at_None in Hn. lia.
    + rewrite (printLevel_bad_index m level msg args w Hgate Hshow Hc) in Hrun.
      discriminate.
  - intros Hrange.
    destruct (levels_at (level - 1)) as [c|] eqn:Hc.
    + eexists. apply (Hdef c eq_refl).
    + apply levels_at_None in Hc. lia.
  - intros ->. eexists. split; [apply (Hdef NUL); reflexivity|].
    simpl. apply sinks_append_at. exact Hl.
Qed.

(** ** What the level of a passing call changes *)

(** X5: with the level hidden and hooks that only write, the level of a
    call matters for the gate only: two calls that both pass behave the
    same, whatever the format and the arguments are. *)
Theorem hidden_level_is_not_observable (m : Memory) (level1 level2 : Z)
    (msg : format_source) (args : va_list) (w : World) :
  hooks_only_write w ->
  _showLevel (Log w) = false ->
  level1 <= _level (Log w) ->
  level2 <= _level (Log w) ->
  printLevel m level1 msg args w = printLevel m level2 msg args w.
Proof.
  intros _ Hshow H1 H2. unfold printLevel. rewrite !(bind_member _level).
  destruct (Z.leb_spec level1 (_level (Log w))); [|lia].
  destruct (Z.leb_spec level2 (_level (Log w))); [|lia].
  rewrite !bind_member, !(bind_unfold (call_if_set _ _)).
  destruct (call_if_set (_prefix (Log w)) (_logOutput (Log w)) w)
    as [[[] w1]|] eqn:Hpre; [|reflexivity].
  rewrite !(bind_member _showLevel).
  rewrite (keeps_Log_call_if_set _ _ _ _ _ Hpre), Hshow. reflexivity.
Qed.

(** X6: with the level shown, the entry point can be read off the output: two
    entry points that pass and leave the same world are the same. *)
Theorem shown_level_identifies_entry (e1 e2 : entry) (m : Memory)
    (msg : format_source) (args : va_list) (w : World) (l : loc)
    (s0 pre fmt body suf : list byte) :
  entry_level e1 <= _level (Log w) ->
  entry_level e2 <= _level (Log w) ->
  _showLevel (Log w) = true ->
  _logOutput (Log w) = Some l ->
  sinks w !! l = Some s0 ->
  slot_writes (_prefix (Log w)) pre ->
  slot_writes (_suffix (Log w)) suf ->
  source_bytes m msg = Some fmt ->
  render m fmt args = Some body ->
  entry_point e1 m msg args w = entry_point e2 m msg args w ->
  e1 = e2.
Proof.
  intros H1 H2 Hshow Hout Hl Hpre Hsuf Hfmt Hbody.
  rewrite !entry_point_printLevel.
  rewrite (printLevel_run m (entry_level e1) msg args w l s0 pre
             (display_char e1 :: bytes ": ") fmt body suf);
    try assumption;
    [| rewrite indicator_entry, Hshow; reflexivity ].
  rewrite (printLevel_run m (entry_level e2) msg args w l s0 pre
             (display_char e2 :: bytes ": ") fmt body suf);
    try assumption;
    [| rewrite indicator_entry, Hshow; reflexivity ].
  intros Heq.
  assert (Hsinks :
    sinks (append_at l (pre ++ (display_char e1 :: bytes ": ") ++ body ++ suf) w) !! l
    = sinks (append_at l (pre ++ (display_char e2 :: bytes ": ") ++ body ++ suf) w) !! l).
  { exact (f_equal (fun r : option (unit * World) =>
                      match r with
                      | Some (_, x) => sinks x !! l
                      | None => None
                      end) Heq). }
  rewrite !(sinks_append_at l _ s0 w Hl) in Hsinks.
  injection Hsinks as Hsinks.
  apply app_inv_head in Hsinks. apply app_inv_head in Hsinks.
  injection Hsinks as Hchar.
  destruct e1, e2; first [reflexivity | discriminate Hchar].
Qed.

(** ** What a call reads of the logger object *)

Lemma reads_ret {A} (a : A) : reads_output_members (ret a).
Proof. intros w L _. reflexivity. Qed.

Lemma reads_undefined {A} : reads_output_members (@undefined A).
Proof. intros w L _. reflexivity. Qed.

Lemma reads_defined {A} (o : option A) : reads_output_members (defined o).
Proof. destruct o; [apply reads_ret | apply reads_undefined]. Qed.

Lemma reads_member {A} (f : Logging -> A) :
  (forall L1 L2, same_output_members L1 L2 -> f L1 = f L2) ->
  reads_output_members (member f).
Proof.
  intros Hf w L Hsame. unfold member. simpl. rewrite (Hf _ _ Hsame).
  reflexivity.
Qed.

Lemma reads_logOutput : reads_output_members (member _logOutput).
Proof. apply reads_member. intros L1 L2 (H & _). exact H. Qed.

Lemma reads_showLevel : reads_output_members (member _showLevel).
Proof. apply reads_member. intros L1 L2 (_ & H & _). exact H. Qed.

Lemma reads_prefix : reads_output_members (member _prefix).
Proof. apply reads_member. intros L1 L2 (_ & _ & H & _). exact H. Qed.

Lemma reads_suffix : reads_output_members (member _suffix).
Proof. apply reads_member. intros L1 L2 (_ & _ & _ & H). exact H. Qed.

Lemma reads_bind {A B} (c : M A) (k : A -> M B) :
  reads_output_members c -> keeps_Log c ->
  (forall a, reads_output_members (k a)) ->
  reads_output_members (bind c k).
Proof.
  intros Hc HK Hk w L Hsame. rewrite !bind_unfold, (Hc w L Hsame).
  destruct (c w) as [[a w1]|] eqn:Hcw; [|reflexivity].
  apply Hk. rewrite (HK w a w1 Hcw). exact Hsame.
Qed.

Lemma reads_Print_write (out : option loc) (bs : list byte) :
  reads_output_members (Print_write out bs).
Proof.
  intros w L _. unfold Print_write. destruct out as [l|]; [|reflexivity].
  simpl. destruct (sinks w !! l); reflexivity.
Qed.

Lemma reads_call_if_set (slot : option printfunction) (out : option loc) :
  reads_output_members (call_if_set slot out).
Proof.
  intros w L _. destruct slot as [f|]; [|reflexivity].
  unfold call_if_set, call. simpl. destruct (f out (sinks w)); reflexivity.
Qed.

Ltac reads :=
  repeat first
    [ apply reads_ret | apply reads_undefined | apply reads_defined
    | apply reads_logOutput | apply reads_showLevel
    | apply reads_prefix | apply reads_suffix
    | apply reads_Print_write | apply reads_call_if_set
    | assumption
    | apply keeps_Log_ret | apply keeps_Log_undefined | apply keeps_Log_defined
    | apply keeps_Log_member | apply keeps_Log_Print_write
    | apply keeps_Log_call_if_set | apply keeps_Log_printFormat
    | apply keeps_Log_print_with | apply keeps_Log_print_msg
    | apply reads_bind; [| |intros ?]
    | apply keeps_Log_bind; [|intros ?]
    | match goal with
      | |- reads_output_members (if ?b then _ else _) => destruct b
      | |- reads_output_members (match ?x with _ => _ end) => destruct x
      | |- keeps_Log (if ?b then _ else _) => destruct b
      | |- keeps_Log (match ?x with _ => _ end) => destruct x
      end ].

Lemma reads_printFormat (m : Memory) (t : byte) (args : va_list) :
  reads_output_members (printFormat m t args).
Proof. unfold printFormat, Print_str, Print_char. reads. Qed.

Lemma reads_print_with (fetch : addr -> option byte) (m : Memory) (fuel : nat) :
  forall (p : addr) (args : va_list),
    reads_output_members (print_with fetch m fuel p args).
Proof.
  induction fuel as [|fuel IH]; intros p args; cbn [print_with].
  - apply reads_undefined.
  - pose proof (reads_printFormat m) as HF. unfold Print_char. reads;
      apply IH.
Qed.

Lemma reads_print_msg (m : Memory) (msg : format_source) (args : va_list) :
  reads_output_members (print_msg m msg args).
Proof. destruct msg; apply reads_print_with. Qed.

(** [printLevel] reads the threshold for the gate comparison and nothing
    else of it. *)
Lemma printLevel_swap_Log (m : Memory) (level : Z) (msg : format_source)
    (args : va_list) (w : World) (L : Logging) :
  same_output_members (Log w) L ->
  (level <=? _level L) = (level <=? _level (Log w)) ->
  printLevel m level msg args (swap_Log L w) =
    match printLevel m level msg args w with
    | Some (a, w') => Some (a, swap_Log L w')
    | None => None
    end.
Proof.
  intros Hsame Hgate. unfold printLevel. rewrite !(bind_member _level).
  cbn [Log swap_Log]. rewrite Hgate.
  destruct (level <=? _level (Log w)); [|reflexivity].
  match goal with
  | |- ?c (swap_Log L w) = _ => assert (K : reads_output_members c)
  end.
  { pose proof (reads_print_msg m msg args) as HP.
    unfold Print_char, Print_str. reads. }
  apply K. exact Hsame.
Qed.

(** X1: the threshold only gates: with hooks that only write, under
    another threshold for which the call passes as well, a passing call
    does to the sinks and the hook count exactly what it does under this
    one, defined or not. *)
Theorem threshold_only_gates (m : Memory) (level threshold : Z)
    (msg : format_source) (args : va_list) (w : World) :
  hooks_only_write w ->
  level <= _level (Log w) ->
  level <= threshold ->
  printLevel m level msg args
    (swap_Log {| _level := threshold;
                 _showLevel := _showLevel (Log w);
                 _baud := _baud (Log w);
                 _logOutput := _logOutput (Log w);
                 _prefix := _prefix (Log w);
                 _suffix := _suffix (Log w) |} w) =
  match printLevel m level msg args w with
  | Some (a, w') =>
      Some (a, swap_Log {| _level := threshold;
                           _showLevel := _showLevel (Log w);
                           _baud := _baud (Log w);
                           _logOutput := _logOutput (Log w);
                           _prefix := _prefix (Log w);
                           _suffix := _suffix (Log w) |} w')
  | None => None
  end.
Proof.
  intros _ H1 H2. apply printLevel_swap_Log.
  - repeat split.
  - cbn [_level].
    destruct (Z.leb_spec level threshold); [|lia].
    destruct (Z.leb_spec level (_level (Log w))); [reflexivity | lia].
Qed.


(** ** The sink only grows *)




(** ** Calls in a row *)

(** X9: two passing calls in a row append their two lines in call order, each
    with its own prefix output, indicator, body and suffix output, and
    invoke every hook that is set twice. *)
Theorem two_calls_append_in_order (m : Memory)
    (level1 : Z) (msg1 : format_source) (args1 : va_list)
    (level2 : Z) (msg2 : format_source) (args2 : va_list)
    (w : World) (l : loc)
    (s0 pre suf ind1 fmt1 body1 ind2 fmt2 body2 : list byte) :
  level1 <= _level (Log w) ->
  level2 <= _level (Log w) ->
  _logOutput (Log w) = Some l ->
  sinks w !! l = Some s0 ->
  slot_writes (_prefix (Log w)) pre ->
  slot_writes (_suffix (Log w)) suf ->
  indicator (_showLevel (Log w)) level1 = Some ind1 ->
  indicator (_showLevel (Log w)) level2 = Some ind2 ->
  source_bytes m msg1 = Some fmt1 ->
  render m fmt1 args1 = Some body1 ->
  source_bytes m msg2 = Some fmt2 ->
  render m fmt2 args2 = Some body2 ->
  exists w' : World,
    printLevel_twice m level1 msg1 args1 level2 msg2 args2 w = Some (tt, w') /\
    sinks w' !! l =
      Some (s0 ++ (pre ++ ind1 ++ body1 ++ suf) ++ (pre ++ ind2 ++ body2 ++ suf)) /\
    hook_calls w' = (hook_calls w + 2 * hooks_set (Log w))%nat /\
    Log w' = Log w.
Proof.
  intros Hg1 Hg2 Hout Hl Hpre Hsuf Hi1 Hi2 Hf1 Hb1 Hf2 Hb2.
  unfold printLevel_twice. rewrite bind_unfold.
  rewrite (printLevel_run m level1 msg1 args1 w l s0 pre ind1 fmt1 body1 suf)
    by assumption.
  set (w1 := count_calls _ (append_at l _ w)).
  assert (HL1 : Log w1 = Log w) by (unfold w1; simpl; apply Log_append_at).
  assert (Hl1 : sinks w1 !! l = Some (s0 ++ pre ++ ind1 ++ body1 ++ suf))
    by (unfold w1; simpl; apply sinks_append_at; exact Hl).
  rewrite (printLevel_run m level2 msg2 args2 w1 l _ pre ind2 fmt2 body2 suf
             (eq_ind_r (fun L => level2 <= _level L) Hg2 HL1)
             (eq_ind_r (fun L => _logOutput L = Some l) Hout HL1)
             Hl1
             (eq_ind_r (fun L => slot_writes (_prefix L) pre) Hpre HL1)
             (eq_ind_r (fun L => slot_writes (_suffix L) suf) Hsuf HL1)
             (eq_ind_r (fun L => indicator (_showLevel L) level2 = Some ind2) Hi2 HL1)
             Hf2 Hb2).
  eexists. split; [reflexivity|]. simpl. repeat split.
  - rewrite (sinks_append_at l _ _ w1 Hl1). rewrite <- !app_assoc. reflexivity.
  - rewrite hook_calls_append_at, Log_append_at. unfold w1. simpl.
    rewrite hook_calls_append_at. lia.
  - rewrite Log_append_at. exact HL1.
Qed.

End Further.

(** * The further properties on the sample device *)

Section FurtherSamples.

#[local] Existing Instance esp8266.

(** The warning of the quick start between two tag hooks: two hook
    invocations. *)
Lemma hooks_invoked_once_each_witness :
  printLevel (memory_with warning_format) LOG_LEVEL_WARNING (CharPtr 0%nat)
    [AInt 34; AInt 799870]
    (device LOG_LEVEL_WARNING true (Some (tag_hook (bytes "[12] ")))
       (Some (tag_hook (bytes "~"))))
  = Some (tt, {| Log := Log (device LOG_LEVEL_WARNING true
                               (Some (tag_hook (bytes "[12] ")))
                               (Some (tag_hook (bytes "~"))));
                 sinks := {[ Serial :=
                   bytes ("[12] W: Log as Warning with integer values : 34, 799870"
                          ++ CR ++ "~") ]};
                 hook_calls := 2 |}) /\
  2%nat = Nat.add 0 2.
Proof.
  assert (Hrun :
    printLevel (memory_with warning_format) LOG_LEVEL_WARNING (CharPtr 0%nat)
      [AInt 34; AInt 799870]
      (device LOG_LEVEL_WARNING true (Some (tag_hook (bytes "[12] ")))
         (Some (tag_hook (bytes "~"))))
    = Some (tt, {| Log := Log (device LOG_LEVEL_WARNING true
                                 (Some (tag_hook (bytes "[12] ")))
                                 (Some (tag_hook (bytes "~"))));
                   sinks := {[ Serial :=
                     bytes ("[12] W: Log as Warning with integer values : 34, 799870"
                            ++ CR ++ "~") ]};
                   hook_calls := 2 |}))
    by (vm_compute; reflexivity).
  split; [exact Hrun|].
  assert (Hhooks :
    hooks_only_write
      (device LOG_LEVEL_WARNING true (Some (tag_hook (bytes "[12] ")))
         (Some (tag_hook (bytes "~"))))).
  { right. exists Serial, [], (bytes "[12] "), (bytes "~").
    repeat split; apply tag_hook_writes. }
  exact (hooks_invoked_once_each _ _ _ _ _ _ Hhooks Hrun).
Defined.

(** A logger whose threshold was raised while its sink is still null. *)
Lemma open_gate_needs_sink_witness :
  LOG_LEVEL_WARNING <= LOG_LEVEL_VERBOSE /\
  warning (memory_with warning_format) (CharPtr 0%nat) [AInt 34; AInt 799870]
    {| Log := {| _level := LOG_LEVEL_VERBOSE; _showLevel := true; _baud := 0;
                 _logOutput := None; _prefix := None; _suffix := None |};
       sinks := {[ Serial := [] ]};
       hook_calls := 0 |}
  = None.
Proof.
  split; [cbv; discriminate|].
  apply (open_gate_needs_sink (memory_with warning_format)
           LOG_LEVEL_WARNING (CharPtr 0%nat) [AInt 34; AInt 799870]
           {| Log := {| _level := LOG_LEVEL_VERBOSE; _showLevel := true;
                        _baud := 0; _logOutput := None;
                        _prefix := None; _suffix := None |};
              sinks := {[ Serial := [] ]};
              hook_calls := 0 |});
    first [ cbv; discriminate | vm_compute; reflexivity ].
Defined.

(** Level 7 under threshold 7: the call is defined and the level character
    is the zero byte. *)
Lemma level_index_bounds_are_tight_witness :
  ((exists w' : World,
      printLevel (memory_with "x") 7 (CharPtr 0%nat) []
        (device 7 true None None) = Some (tt, w')) <->
   1 <= 7 <= 7) /\
  (7 = 7 ->
   exists w' : World,
     printLevel (memory_with "x") 7 (CharPtr 0%nat) []
       (device 7 true None None) = Some (tt, w') /\
     sinks w' !! Serial = Some ([] ++ [] ++ (NUL :: bytes ": ") ++ bytes "x" ++ [])).
Proof.
  apply (level_index_bounds_are_tight (memory_with "x") 7 (CharPtr 0%nat) []
           (device 7 true None None) Serial [] [] (bytes "x") (bytes "x") []);
    [ cbv; discriminate | reflexivity | reflexivity | vm_compute; reflexivity
    | reflexivity | reflexivity | vm_compute; reflexivity
    | vm_compute; reflexivity ].
Defined.

Lemma hidden_level_is_not_observable_witness :
  printLevel (memory_with warning_format) LOG_LEVEL_FATAL (CharPtr 0%nat)
    [AInt 34; AInt 799870] (device LOG_LEVEL_WARNING false None None)
  = printLevel (memory_with warning_format) LOG_LEVEL_WARNING (CharPtr 0%nat)
      [AInt 34; AInt 799870] (device LOG_LEVEL_WARNING false None None).
Proof.
  apply (hidden_level_is_not_observable (memory_with warning_format)
           LOG_LEVEL_FATAL LOG_LEVEL_WARNING (CharPtr 0%nat)
           [AInt 34; AInt 799870] (device LOG_LEVEL_WARNING false None None));
    [ left; split; reflexivity | reflexivity
    | cbv; discriminate | cbv; discriminate ].
Defined.

Lemma shown_level_identifies_entry_witness :
  entry_point Error (memory_with "x") (CharPtr 0%nat) []
    (device LOG_LEVEL_WARNING true None None)
  = entry_point Error (memory_with "x") (CharPtr 0%nat) []
      (device LOG_LEVEL_WARNING true None None) /\
  Error = Error.
Proof.
  split; [reflexivity|].
  apply (shown_level_identifies_entry Error Error (memory_with "x")
           (CharPtr 0%nat) [] (device LOG_LEVEL_WARNING true None None)
           Serial [] [] (bytes "x") (bytes "x") []);
    [ cbv; discriminate | cbv; discriminate | reflexivity | reflexivity
    | vm_compute; reflexivity | reflexivity | reflexivity
    | vm_compute; reflexivity | vm_compute; reflexivity | reflexivity ].
Defined.

(** The warning of the quick start under threshold WARNING and under
    threshold VERBOSE. *)
Lemma threshold_only_gates_witness :
  printLevel (memory_with warning_format) LOG_LEVEL_WARNING (CharPtr 0%nat)
    [AInt 34; AInt 799870] (device LOG_LEVEL_VERBOSE true None None)
  = Some (tt, set_sinks
                {[ Serial := bytes ("W: Log as Warning with integer values : 34, 799870" ++ CR) ]}
                (device LOG_LEVEL_VERBOSE true None None)).
Proof.
  assert (H1 : LOG_LEVEL_WARNING
               <= _level (Log (device LOG_LEVEL_WARNING true None None)))
    by (cbv; discriminate).
  assert (H2 : LOG_LEVEL_WARNING <= LOG_LEVEL_VERBOSE) by (cbv; discriminate).
  pose proof
    (threshold_only_gates (memory_with warning_format) LOG_LEVEL_WARNING
       LOG_LEVEL_VERBOSE (CharPtr 0%nat) [AInt 34; AInt 799870]
       (device LOG_LEVEL_WARNING true None None)
       (or_introl (conj eq_refl eq_refl)) H1 H2) as Hthm.
  change (swap_Log _ (device LOG_LEVEL_WARNING true None None))
    with (device LOG_LEVEL_VERBOSE true None None) in Hthm.
  rewrite Hthm. vm_compute. reflexivity.
Defined.


(** An error and then the warning of the quick start, under threshold
    VERBOSE. *)
Lemma two_calls_append_in_order_witness :
  exists w' : World,
    printLevel_twice (memory_with warning_format)
      LOG_LEVEL_ERROR (FlashStringHelper 0%nat) [AInt 1; AInt 2]
      LOG_LEVEL_WARNING (CharPtr 0%nat) [AInt 34; AInt 799870]
      (device LOG_LEVEL_VERBOSE true None None) = Some (tt, w') /\
    sinks w' !! Serial =
      Some ([] ++
            ([] ++ bytes "E: "
                ++ bytes ("Log as Warning with integer values : 1, 2" ++ CR) ++ [])
            ++ ([] ++ bytes "W: "
                   ++ bytes ("Log as Warning with integer values : 34, 799870" ++ CR)
                   ++ [])) /\
    hook_calls w' = (0 + 2 * 0)%nat /\
    Log w' = Log (device LOG_LEVEL_VERBOSE true None None).
Proof.
  apply (two_calls_append_in_order (memory_with warning_format)
           LOG_LEVEL_ERROR (FlashStringHelper 0%nat) [AInt 1; AInt 2]
           LOG_LEVEL_WARNING (CharPtr 0%nat) [AInt 34; AInt 799870]
           (device LOG_LEVEL_VERBOSE true None None) Serial
           [] [] [] (bytes "E: ") (bytes warning_format)
           (bytes ("Log as Warning with integer values : 1, 2" ++ CR))
           (bytes "W: ") (bytes warning_format)
           (bytes ("Log as Warning with integer values : 34, 799870" ++ CR)));
    first [ reflexivity | cbv; discriminate | vm_compute; reflexivity ].
Defined.

End FurtherSamples.
